(** * react-native-tanstack: key space, strategy registry, persistence codec
      and optimistic mutation controller

    A shallow embedding of the TypeScript sources

    - [domain/utils/QueryKeyFactory] (createQueryKeyFactory,
      createScopedQueryKey, matchQueryKey),
    - [infrastructure/config/QueryClientConfig.ts] (CacheStrategies,
      getCacheStrategy) with [domain/constants/CacheDefaults.ts],
    - [infrastructure/config/PersisterConfig] (createPersister),
    - [presentation/hooks/useOptimisticUpdate.ts] (useOptimisticUpdate),

    and the properties the specification states about them. *)

From Stdlib Require Import Ascii String.
From stdpp Require Import gmap strings list fin_maps pretty.

Local Open Scope Z_scope.
Local Open Scope string_scope.
Local Open Scope list_scope.

(** ** JavaScript preliminaries *)

(** JavaScript numbers as far as this code computes with them: integral
    values (epoch milliseconds, durations, counts) and [NaN], which is what
    arithmetic on a missing operand produces. *)
Inductive number : Type :=
  | Fin (z : Z)
  | NaN.

Global Instance number_eq_dec : EqDecision number.
Proof. solve_decision. Defined.

(** [a - b] *)
Definition number_sub (a b : number) : number :=
  match a, b with
  | Fin x, Fin y => Fin (x - y)
  | _, _ => NaN
  end.

(** [a > b]: every comparison with [NaN] is false. *)
Definition number_gt (a b : number) : bool :=
  match a, b with
  | Fin x, Fin y => bool_decide (y < x)
  | _, _ => false
  end.

(** The errors named by the specification, and the [SyntaxError] and
    [TypeError] the platform raises. *)
Inductive exn : Type :=
  | InvalidKeyError
  | UnknownStrategyError
  | SyntaxError
  | TypeError.

(** The outcome of a call: a returned value or a thrown exception. *)
Inductive completion (A : Type) : Type :=
  | Return (a : A)
  | Throw (e : exn).
Arguments Return {A} a.
Arguments Throw {A} e.

Global Instance completion_ret : MRet completion := fun A a => Return a.

Global Instance completion_bind : MBind completion := fun A B k c =>
  match c with
  | Return a => k a
  | Throw e => Throw e
  end.

(** [try { body } catch (error) { handler }] *)
Definition try_catch {A : Type} (body : completion A) (handler : exn -> A) : A :=
  match body with
  | Return a => a
  | Throw e => handler e
  end.

(** ** KeySpace: QueryKeyFactory *)

Module KeySpace.

(** Object identity: the address of a record in the heap. *)
Definition loc := nat.

(** A key segment ([unknown] in the source): a primitive, or a reference to
    a record such as a filter object. *)
Inductive value : Type :=
  | VUndefined
  | VNull
  | VBool (b : bool)
  | VNumber (n : number)
  | VString (s : string)
  | VObject (l : loc).

Global Instance value_eq_dec : EqDecision value.
Proof. solve_decision. Defined.

(** A flat attribute record, and the heap the references point into. *)
Inductive prim : Type :=
  | PNull
  | PBool (b : bool)
  | PNumber (n : number)
  | PString (s : string).

Global Instance prim_eq_dec : EqDecision prim.
Proof. solve_decision. Defined.

Abbreviation record := (gmap string prim).
Abbreviation heap := (gmap loc record).

Definition key := list value.

(** [a === b]: primitives by value ([NaN] differs from itself), objects by
    reference. *)
Definition strict_equals (a b : value) : bool :=
  match a, b with
  | VNumber NaN, _ | _, VNumber NaN => false
  | _, _ => bool_decide (a = b)
  end.

(** The object [createQueryKeyFactory] returns. *)
Record QueryKeyFactory : Type := {
  all : completion key;
  lists : completion key;
  list_ : option loc -> completion key;
  details : completion key;
  detail : string + number -> completion key;
  custom : list value -> completion key;
}.

Definition id_value (id : string + number) : value :=
  match id with
  | inl s => VString s
  | inr n => VNumber n
  end.

Definition createQueryKeyFactory (resource : string) : QueryKeyFactory := {|
  all := Return [VString resource];
  lists := Return [VString resource; VString "list"];
  list_ := fun filters =>
    match filters with
    | Some f => Return [VString resource; VString "list"; VObject f]
    | None => Return [VString resource; VString "list"]
    end;
  details := Return [VString resource; VString "detail"];
  detail := fun id => Return [VString resource; VString "detail"; id_value id];
  custom := fun args => Return (VString resource :: args);
|}.

Definition createScopedQueryKey (scopeId resource : string) (args : list value)
  : completion key :=
  Return ([VString "user"; VString scopeId; VString resource] ++ args)%list.

(** [Array.prototype.every], the callback receiving element and index. *)
Fixpoint every_from {A : Type} (f : A -> nat -> bool) (index : nat) (l : list A)
  : bool :=
  match l with
  | [] => true
  | x :: l' => f x index && every_from f (S index) l'
  end.

Definition every {A : Type} (f : A -> nat -> bool) (l : list A) : bool :=
  every_from f 0%nat l.

(** [queryKey[index]]: reading past the end gives [undefined]. *)
Definition at_index (queryKey : key) (index : nat) : value :=
  default VUndefined (queryKey !! index).

Definition matchQueryKey (queryKey pattern : key) : bool :=
  if bool_decide (length queryKey < length pattern)%nat then false
  else
    every (fun value index =>
             if strict_equals value VUndefined then true
             else strict_equals (at_index queryKey index) value)
          pattern.

(** What the specification calls deep structural equality of two segments:
    records are compared by their attributes, not by their address. *)
Definition deep_equal (h : heap) (a b : value) : bool :=
  match a, b with
  | VObject la, VObject lb =>
      bool_decide (la = lb) ||
      match h !! la, h !! lb with
      | Some ra, Some rb => bool_decide (ra = rb)
      | _, _ => false
      end
  | _, _ => bool_decide (a = b)
  end.

(** The matching rule in the specification's words, with [undefined] as the
    wildcard sentinel. *)
Definition matches_spec (h : heap) (queryKey pattern : key) : Prop :=
  (length pattern <= length queryKey)%nat /\
  forall (i : nat) (p : value),
    pattern !! i = Some p ->
    p = VUndefined \/
    exists k, queryKey !! i = Some k /\ deep_equal h p k = true.

(** [createPaginatedQueryKey]: the pagination record is the third segment. *)
Definition createPaginatedQueryKey (resource : string) (pagination : loc)
  : completion key :=
  Return [VString resource; VString "list"; VObject pagination].

Definition createInfiniteQueryKey (resource : string) (params : option loc)
  : completion key :=
  match params with
  | Some p => Return [VString resource; VString "infinite"; VObject p]
  | None => Return [VString resource; VString "infinite"]
  end.

(** Two filter records with the same attributes at different addresses. *)
Definition published : heap :=
  {[ 0%nat := {[ "status" := PString "published" ]};
     1%nat := {[ "status" := PString "published" ]} ]}.

End KeySpace.

(** ** CacheStrategyRegistry: CacheDefaults and QueryClientConfig *)

Module CacheDefaults.

(** [TIME_MS] *)
Definition SECOND : Z := 1000.
Definition MINUTE : Z := 60 * 1000.
Definition HOUR : Z := 60 * 60 * 1000.
Definition DAY : Z := 24 * 60 * 60 * 1000.
Definition WEEK : Z := 7 * 24 * 60 * 60 * 1000.

(** [DEFAULT_STALE_TIME]; its [PERMANENT: Infinity] entry is used by no
    strategy and is left out. *)
Module DEFAULT_STALE_TIME.
Definition REALTIME : Z := 0.
Definition VERY_SHORT : Z := MINUTE.
Definition SHORT : Z := 5 * MINUTE.
Definition MEDIUM : Z := 30 * MINUTE.
Definition LONG : Z := 2 * HOUR.
Definition VERY_LONG : Z := DAY.
End DEFAULT_STALE_TIME.

Module DEFAULT_GC_TIME.
Definition VERY_SHORT : Z := 5 * MINUTE.
Definition SHORT : Z := 30 * MINUTE.
Definition MEDIUM : Z := 2 * HOUR.
Definition LONG : Z := DAY.
Definition VERY_LONG : Z := 7 * DAY.
End DEFAULT_GC_TIME.

(** [boolean | number] *)
Inductive retry_t : Type :=
  | RetryBool (b : bool)
  | RetryCount (n : Z).

Module DEFAULT_RETRY.
Definition NONE : retry_t := RetryBool false.
Definition MINIMAL : retry_t := RetryCount 1.
Definition STANDARD : retry_t := RetryCount 3.
Definition AGGRESSIVE : retry_t := RetryCount 5.
End DEFAULT_RETRY.

End CacheDefaults.

Module QueryClientConfig.
Import CacheDefaults.

(** [boolean | 'always'] *)
Inductive refetch_t : Type :=
  | RefetchBool (b : bool)
  | RefetchAlways.

(** [number | false] *)
Inductive interval_t : Type :=
  | IntervalMs (ms : Z)
  | IntervalOff.

(** [interface CacheConfig]; an optional property that is not set is [None]. *)
Record CacheConfig : Type := {
  staleTime : Z;
  gcTime : Z;
  refetchOnMount : option refetch_t;
  refetchOnWindowFocus : option refetch_t;
  refetchOnReconnect : option refetch_t;
  retry : option retry_t;
  refetchInterval : option interval_t;
}.

(** [enum CacheStrategyType] and the string each member stands for. *)
Inductive CacheStrategyType : Type :=
  | REALTIME
  | USER_DATA
  | MASTER_DATA
  | PUBLIC_DATA
  | CUSTOM.

Definition CacheStrategyType_value (t : CacheStrategyType) : string :=
  match t with
  | REALTIME => "REALTIME"
  | USER_DATA => "USER_DATA"
  | MASTER_DATA => "MASTER_DATA"
  | PUBLIC_DATA => "PUBLIC_DATA"
  | CUSTOM => "CUSTOM"
  end.

Definition strategy (stale gc : Z) (mount focus reconnect : refetch_t)
  (r : retry_t) : CacheConfig := {|
  staleTime := stale;
  gcTime := gc;
  refetchOnMount := Some mount;
  refetchOnWindowFocus := Some focus;
  refetchOnReconnect := Some reconnect;
  retry := Some r;
  refetchInterval := None;
|}.

(** The own properties of the [CacheStrategies] object. *)
Definition CacheStrategies : gmap string CacheConfig :=
  list_to_map [
    ("REALTIME",
      strategy DEFAULT_STALE_TIME.REALTIME DEFAULT_GC_TIME.VERY_SHORT
        RefetchAlways (RefetchBool true) (RefetchBool true)
        DEFAULT_RETRY.MINIMAL);
    ("USER_DATA",
      strategy DEFAULT_STALE_TIME.MEDIUM DEFAULT_GC_TIME.LONG
        (RefetchBool false) (RefetchBool false) (RefetchBool true)
        DEFAULT_RETRY.STANDARD);
    ("MASTER_DATA",
      strategy DEFAULT_STALE_TIME.VERY_LONG DEFAULT_GC_TIME.VERY_LONG
        (RefetchBool false) (RefetchBool false) (RefetchBool false)
        DEFAULT_RETRY.STANDARD);
    ("PUBLIC_DATA",
      strategy DEFAULT_STALE_TIME.MEDIUM DEFAULT_GC_TIME.LONG
        (RefetchBool false) (RefetchBool false) (RefetchBool true)
        DEFAULT_RETRY.STANDARD);
    ("CUSTOM",
      strategy DEFAULT_STALE_TIME.SHORT DEFAULT_GC_TIME.MEDIUM
        (RefetchBool false) (RefetchBool false) (RefetchBool true)
        DEFAULT_RETRY.STANDARD)
  ].

(** The properties every plain object inherits from [Object.prototype]. *)
Definition Object_prototype : list string :=
  [ "constructor"; "hasOwnProperty"; "isPrototypeOf"; "propertyIsEnumerable";
    "toLocaleString"; "toString"; "valueOf"; "__proto__";
    "__defineGetter__"; "__defineSetter__"; "__lookupGetter__";
    "__lookupSetter__" ].

(** What the property read [CacheStrategies[strategy]] evaluates to: an own
    property, an inherited one, or [undefined]. *)
Inductive property : Type :=
  | Own (c : CacheConfig)
  | Inherited (name : string)
  | Undefined.

Definition getCacheStrategy (strategy : string) : completion property :=
  Return
    match CacheStrategies !! strategy with
    | Some c => Own c
    | None =>
        if bool_decide (strategy ∈ Object_prototype) then Inherited strategy
        else Undefined
    end.

End QueryClientConfig.

(** ** PersistenceCodec: PersisterConfig *)

Module PersisterConfig.
Import CacheDefaults.

(** The values [JSON.parse] builds and [JSON.stringify] consumes. *)
#[local] Set Warnings "-register-all".
Inductive JSValue : Type :=
  | JUndefined
  | JNull
  | JBool (b : bool)
  | JNumber (n : number)
  | JString (s : string)
  | JArray (elements : list JSValue)
  | JObject (properties : list (string * JSValue)).

(** The platform functions the persister calls.  [JSON_parse] throws on a
    malformed text; [JSON_stringify] gives no string for [undefined];
    [StringToNumber] and [ToPrimitive] are the coercions behind a
    subtraction whose operand is a string, an array or an object;
    [ToPrimitive] throws a [TypeError] when the object has no callable
    [valueOf] or [toString] that gives a primitive. *)
Record Platform : Type := {
  JSON_parse : string -> completion JSValue;
  JSON_stringify : JSValue -> option string;
  StringToNumber : string -> number;
  ToPrimitive : JSValue -> completion string;
}.

Fixpoint lookup_property (name : string) (properties : list (string * JSValue))
  : option JSValue :=
  match properties with
  | [] => None
  | (k, v) :: rest =>
      if bool_decide (k = name) then Some v else lookup_property name rest
  end.

(** [v.name] for the names read here ([version], [timestamp], [data]), which
    no prototype defines: reading from [null] or [undefined] throws, a missing
    property reads as [undefined]. *)
Definition Get (v : JSValue) (name : string) : completion JSValue :=
  match v with
  | JUndefined | JNull => Throw TypeError
  | JObject properties =>
      Return (default JUndefined (lookup_property name properties))
  | _ => Return JUndefined
  end.

(** [v !== s] for a string [s]. *)
Definition strict_not_equals_string (v : JSValue) (s : string) : bool :=
  match v with
  | JString s' => negb (bool_decide (s' = s))
  | _ => true
  end.

(** The conversion of the right operand of [Date.now() - parsed.timestamp];
    for an array or an object it goes through [ToPrimitive] and can throw. *)
Definition ToNumber (P : Platform) (v : JSValue) : completion number :=
  match v with
  | JUndefined => Return NaN
  | JNull => Return (Fin 0)
  | JBool b => Return (Fin (if b then 1 else 0))
  | JNumber n => Return n
  | JString s => Return (StringToNumber P s)
  | JArray _ | JObject _ =>
      primitive ← ToPrimitive P v; Return (StringToNumber P primitive)
  end.

(** [`${v}`] in a message: an array or an object is converted to a string
    through [ToPrimitive], which can throw; the other values always have a
    text. *)
Definition interpolate (P : Platform) (v : JSValue) : completion unit :=
  match v with
  | JArray _ | JObject _ => _ ← ToPrimitive P v; Return tt
  | _ => Return tt
  end.

(** What is written to the console. *)
Inductive console_entry : Type :=
  | LogVersionMismatch (expected : string) (got : JSValue)
  | LogCacheExpired (age maxAge : number)
  | ErrorDeserialize (error : exn).

(** [if (__DEV__) { ... }] *)
Definition when_DEV {A : Type} (DEV : bool) (entries : list A) : list A :=
  if DEV then entries else [].

Record PersisterFactoryOptions : Type := {
  keyPrefix : option string;
  maxAge : option number;
  busterVersion : option string;
  throttleTime : option Z;
}.

(** The argument handed to [createAsyncStoragePersister].  [serialize] and
    [deserialize] read the clock; [Date.now()] is their first argument. *)
Record AsyncStoragePersisterOptions : Type := {
  key : string;
  throttle : Z;
  serialize : Z -> JSValue -> option string;
  deserialize : Z -> string -> JSValue * list console_entry;
}.

(** The defaults of the options destructuring. *)
Definition keyPrefix_of (options : PersisterFactoryOptions) : string :=
  default "tanstack-query" (keyPrefix options).
Definition maxAge_of (options : PersisterFactoryOptions) : number :=
  default (Fin DEFAULT_GC_TIME.LONG) (maxAge options).
Definition busterVersion_of (options : PersisterFactoryOptions) : string :=
  default "1" (busterVersion options).
Definition throttleTime_of (options : PersisterFactoryOptions) : Z :=
  default 1000 (throttleTime options).

(** [{ version: busterVersion, timestamp: Date.now(), data }] *)
Definition persistData (busterVersion : string) (now : Z) (data : JSValue)
  : JSValue :=
  JObject [ ("version", JString busterVersion);
            ("timestamp", JNumber (Fin now));
            ("data", data) ].

Definition createPersister (P : Platform) (DEV : bool)
  (options : PersisterFactoryOptions) : AsyncStoragePersisterOptions :=
  let keyPrefix := keyPrefix_of options in
  let maxAge := maxAge_of options in
  let busterVersion := busterVersion_of options in
  let throttleTime := throttleTime_of options in
  {|
    key := keyPrefix +:+ "-cache";
    throttle := throttleTime;
    serialize := fun now data =>
      JSON_stringify P (persistData busterVersion now data);
    deserialize := fun now cachedString =>
      try_catch
        (parsed ← JSON_parse P cachedString;
         version ← Get parsed "version";
         if strict_not_equals_string version busterVersion then
           log ←
             (if DEV then
                _ ← interpolate P version;
                Return [LogVersionMismatch busterVersion version]
              else Return []);
           Return (JUndefined, log)
         else
           timestamp ← Get parsed "timestamp";
           written ← ToNumber P timestamp;
           let age := number_sub (Fin now) written in
           if number_gt age maxAge then
             Return (JUndefined, when_DEV DEV [LogCacheExpired age maxAge])
           else
             data ← Get parsed "data";
             Return (data, []))
        (fun error => (JUndefined, when_DEV DEV [ErrorDeserialize error]));
  |}.

(** The result type of the specification's [deserialize]. *)
Inductive Invalid : Type :=
  | DecodeError
  | VersionMismatch
  | Expired.

Inductive restored : Type :=
  | Payload (data : JSValue)
  | InvalidSnapshot (cause : Invalid).

(** What the specification asks of the value [deserialize] returns: some
    reading [view] of it tells the three causes of failure apart. *)
Definition distinguishes_cause (P : Platform) (view : JSValue -> restored)
  : Prop :=
  forall (DEV : bool) (options : PersisterFactoryOptions) (now : Z)
         (cachedString : string),
    let p := createPersister P DEV options in
    let result := view (deserialize p now cachedString).1 in
    (forall e, JSON_parse P cachedString = Throw e ->
               result = InvalidSnapshot DecodeError) /\
    (forall parsed version,
        JSON_parse P cachedString = Return parsed ->
        Get parsed "version" = Return version ->
        strict_not_equals_string version (busterVersion_of options) = true ->
        result = InvalidSnapshot VersionMismatch) /\
    (forall parsed timestamp written,
        JSON_parse P cachedString = Return parsed ->
        Get parsed "version" = Return (JString (busterVersion_of options)) ->
        Get parsed "timestamp" = Return timestamp ->
        ToNumber P timestamp = Return written ->
        number_gt (number_sub (Fin now) written) (maxAge_of options) = true ->
        result = InvalidSnapshot Expired).

(** A value is serializable when the platform writes it as a JSON text and
    reads the same value back from that text. *)
Definition serializable (P : Platform) (v : JSValue) : Prop :=
  exists text : string,
    JSON_stringify P v = Some text /\ JSON_parse P text = Return v.

End PersisterConfig.

(** ** A JSON codec for the integer subset

    A printer and a recursive-descent parser for JSON texts whose numbers are
    integers and whose strings are byte strings; the instance of [Platform]
    the examples run on. *)

Module MiniJSON.
Import PersisterConfig.
Local Open Scope char_scope.

(** The double quote character. *)
Definition dquote : ascii := "034".

Definition is_whitespace (c : ascii) : bool :=
  bool_decide (c = " ") || bool_decide (c = "009") ||
  bool_decide (c = "010") || bool_decide (c = "013").

Fixpoint skip_whitespace (s : string) : string :=
  match s with
  | String c rest => if is_whitespace c then skip_whitespace rest else s
  | EmptyString => s
  end.

Definition digit_value (c : ascii) : option Z :=
  let n := Z.of_nat (nat_of_ascii c) in
  if bool_decide (48 <= n <= 57) then Some (n - 48) else None.

Definition hex_value (c : ascii) : option Z :=
  let n := Z.of_nat (nat_of_ascii c) in
  if bool_decide (48 <= n <= 57) then Some (n - 48)
  else if bool_decide (97 <= n <= 102) then Some (n - 87)
  else if bool_decide (65 <= n <= 70) then Some (n - 55)
  else None.

Definition hex_digit (n : Z) : ascii :=
  ascii_of_nat (Z.to_nat (if bool_decide (n < 10) then n + 48 else n + 87)).

(** *** Printing *)

Definition escape_char (c : ascii) : string :=
  let n := Z.of_nat (nat_of_ascii c) in
  if bool_decide (c = dquote) then String "\" (String dquote EmptyString)
  else if bool_decide (c = "\") then "\\"%string
  else if bool_decide (n = 8) then "\b"%string
  else if bool_decide (n = 9) then "\t"%string
  else if bool_decide (n = 10) then "\n"%string
  else if bool_decide (n = 12) then "\f"%string
  else if bool_decide (n = 13) then "\r"%string
  else if bool_decide (n < 32) then
    String "\" (String "u" (String "0" (String "0"
      (String (hex_digit (n / 16)) (String (hex_digit (n mod 16)) EmptyString)))))
  else String c EmptyString.

Fixpoint escape (s : string) : string :=
  match s with
  | EmptyString => EmptyString
  | String c rest => (escape_char c +:+ escape rest)%string
  end.

Definition quote (s : string) : string :=
  String dquote (escape s +:+ String dquote EmptyString)%string.

Fixpoint join (sep : string) (l : list string) : string :=
  match l with
  | [] => EmptyString
  | [x] => x
  | x :: rest => (x +:+ sep +:+ join sep rest)%string
  end.

(** [undefined] has no JSON text; inside an array it prints as [null], as
    does [NaN], and an object leaves out a property that holds it. *)
Fixpoint print (v : JSValue) : option string :=
  match v with
  | JUndefined => None
  | JNull => Some "null"%string
  | JBool true => Some "true"%string
  | JBool false => Some "false"%string
  | JNumber (Fin z) => Some (pretty z)
  | JNumber NaN => Some "null"%string
  | JString s => Some (quote s)
  | JArray elements =>
      let texts := (fun e => default "null"%string (print e)) <$> elements in
      Some ("[" +:+ join "," texts +:+ "]")%string
  | JObject properties =>
      let texts :=
        omap (fun '(k, e) => t ← print e; Some (quote k +:+ ":" +:+ t)%string)
             properties in
      Some ("{" +:+ join "," texts +:+ "}")%string
  end.

(** *** Parsing *)

Fixpoint parse_digits (acc : Z) (s : string) : Z * string :=
  match s with
  | String c rest =>
      match digit_value c with
      | Some d => parse_digits (10 * acc + d) rest
      | None => (acc, s)
      end
  | EmptyString => (acc, s)
  end.

(** The integer part of a JSON number: [0], or a digit from 1 to 9 followed
    by digits. *)
Definition parse_int (s : string) : option (Z * string) :=
  match s with
  | String c rest =>
      match digit_value c with
      | Some 0 => Some (0, rest)
      | Some d => Some (parse_digits d rest)
      | None => None
      end
  | EmptyString => None
  end.

(** A number must not be continued by a digit, a fraction or an exponent:
    those lie outside the integer subset. *)
Definition number_ends (s : string) : bool :=
  match s with
  | String c _ =>
      negb (bool_decide (is_Some (digit_value c)) || bool_decide (c = ".") ||
            bool_decide (c = "e") || bool_decide (c = "E"))
  | EmptyString => true
  end.

Definition parse_number (s : string) : option (Z * string) :=
  '(z, rest) ←
    match s with
    | String c s' =>
        if bool_decide (c = "-")
        then '(z, rest) ← parse_int s'; Some (- z, rest)
        else parse_int s
    | EmptyString => None
    end;
  if number_ends rest then Some (z, rest) else None.

(** The characters of a string literal after its opening quote. *)
Fixpoint parse_chars (s : string) : option (string * string) :=
  match s with
  | EmptyString => None
  | String c rest =>
      if bool_decide (c = dquote) then Some (EmptyString, rest)
      else if bool_decide (c = "\") then
        match rest with
        | String e rest' =>
            match e, rest' with
            | "u", String h1 (String h2 (String h3 (String h4 rest''))) =>
                match hex_value h1, hex_value h2, hex_value h3, hex_value h4 with
                | Some 0, Some 0, Some a, Some b =>
                    '(body, after) ← parse_chars rest'';
                    Some (String (ascii_of_nat (Z.to_nat (16 * a + b))) body, after)
                | _, _, _, _ => None
                end
            | _, _ =>
                c' ←
                  (if bool_decide (e = dquote) then Some dquote
                   else if bool_decide (e = "\") then Some "\"
                   else if bool_decide (e = "/") then Some "/"
                   else if bool_decide (e = "b") then Some "008"
                   else if bool_decide (e = "f") then Some "012"
                   else if bool_decide (e = "n") then Some "010"
                   else if bool_decide (e = "r") then Some "013"
                   else if bool_decide (e = "t") then Some "009"
                   else None);
                '(body, after) ← parse_chars rest';
                Some (String c' body, after)
            end
        | EmptyString => None
        end
      else if bool_decide (nat_of_ascii c < 32)%nat then None
      else
        '(body, after) ← parse_chars rest;
        Some (String c body, after)
  end.

Definition parse_string (s : string) : option (string * string) :=
  match s with
  | String c rest => if bool_decide (c = dquote) then parse_chars rest else None
  | EmptyString => None
  end.

(** [s] starts with [word]: what follows it. *)
Fixpoint strip_prefix (word s : string) : option string :=
  match word, s with
  | EmptyString, _ => Some s
  | String a word', String b s' =>
      if bool_decide (a = b) then strip_prefix word' s' else None
  | _, EmptyString => None
  end.

(** A later member with the same name overwrites the value of the earlier one
    and keeps its place. *)
Fixpoint set_property (name : string) (v : JSValue)
  (properties : list (string * JSValue)) : list (string * JSValue) :=
  match properties with
  | [] => [(name, v)]
  | (k, old) :: rest =>
      if bool_decide (k = name) then (k, v) :: rest
      else (k, old) :: set_property name v rest
  end.

(** The punctuation mark [c], after white space: what follows it. *)
Definition expect (c : ascii) (s : string) : option string :=
  match skip_whitespace s with
  | String c' rest => if bool_decide (c' = c) then Some rest else None
  | EmptyString => None
  end.

(** One value, then for an array the remaining elements and for an object the
    remaining members.  [fuel] bounds the nesting and the number of elements;
    [parse] supplies more than a text of that length can use. *)
Fixpoint parse_value (fuel : nat) (s : string) : option (JSValue * string) :=
  match fuel with
  | O => None
  | S fuel' =>
      match skip_whitespace s with
      | String c rest as s' =>
          if bool_decide (c = "[") then
            match expect "]" rest with
            | Some rest' => Some (JArray [], rest')
            | None => parse_elements fuel' [] rest
            end
          else if bool_decide (c = "{") then
            match expect "}" rest with
            | Some rest' => Some (JObject [], rest')
            | None => parse_members fuel' [] rest
            end
          else if bool_decide (c = dquote) then
            '(str, rest') ← parse_chars rest; Some (JString str, rest')
          else if bool_decide (c = "n") then
            rest' ← strip_prefix "null" s'; Some (JNull, rest')
          else if bool_decide (c = "t") then
            rest' ← strip_prefix "true" s'; Some (JBool true, rest')
          else if bool_decide (c = "f") then
            rest' ← strip_prefix "false" s'; Some (JBool false, rest')
          else
            '(z, rest') ← parse_number s'; Some (JNumber (Fin z), rest')
      | EmptyString => None
      end
  end
with parse_elements (fuel : nat) (acc : list JSValue) (s : string)
  : option (JSValue * string) :=
  match fuel with
  | O => None
  | S fuel' =>
      '(v, rest) ← parse_value fuel' s;
      match expect "," rest with
      | Some rest' => parse_elements fuel' (acc ++ [v]) rest'
      | None =>
          rest' ← expect "]" rest; Some (JArray (acc ++ [v]), rest')
      end
  end
with parse_members (fuel : nat) (acc : list (string * JSValue)) (s : string)
  : option (JSValue * string) :=
  match fuel with
  | O => None
  | S fuel' =>
      '(k, rest) ← parse_string (skip_whitespace s);
      rest' ← expect ":" rest;
      '(v, rest'') ← parse_value fuel' rest';
      match expect "," rest'' with
      | Some rest3 => parse_members fuel' (set_property k v acc) rest3
      | None =>
          rest3 ← expect "}" rest'';
          Some (JObject (set_property k v acc), rest3)
      end
  end.

(** [JSON.parse]: one value, and nothing but white space after it. *)
Definition parse (text : string) : completion JSValue :=
  match parse_value (2 * String.length text + 2) text with
  | Some (v, rest) =>
      match skip_whitespace rest with
      | EmptyString => Return v
      | _ => Throw SyntaxError
      end
  | None => Throw SyntaxError
  end.

(** *** Coercions *)

(** [Number(s)] for decimal integers: white space around the digits is
    dropped, the empty string is [0], anything else is [NaN]. *)
Definition string_to_number (s : string) : number :=
  match skip_whitespace s with
  | EmptyString => Fin 0
  | String c rest as s' =>
      let '(negative, digits) :=
        if bool_decide (c = "-") then (true, rest)
        else if bool_decide (c = "+") then (false, rest)
        else (false, s') in
      match digits with
      | String d _ =>
          match digit_value d, parse_digits 0 digits with
          | Some _, (z, after) =>
              match skip_whitespace after with
              | EmptyString => Fin (if negative then - z else z)
              | _ => NaN
              end
          | None, _ => NaN
          end
      | EmptyString => NaN
      end
  end.

(** The primitive a parsed value converts to, which is a string for an
    array and an object.  An array joins its elements with commas, [null]
    and [undefined] among them as empty strings.  An object inherits
    [valueOf], which gives back the object, and [toString], which gives
    ["[object Object]"]; a parsed object with a property of its own named
    [toString] hides the inherited one by a value that cannot be called,
    and the conversion throws a [TypeError]. *)
Fixpoint to_primitive (v : JSValue) : completion string :=
  match v with
  | JUndefined => Return "undefined"%string
  | JNull => Return "null"%string
  | JBool true => Return "true"%string
  | JBool false => Return "false"%string
  | JNumber (Fin z) => Return (pretty z)
  | JNumber NaN => Return "NaN"%string
  | JString s => Return s
  | JArray elements =>
      texts ←
        (fix go (l : list JSValue) : completion (list string) :=
           match l with
           | [] => Return []
           | e :: l' =>
               text ←
                 match e with
                 | JUndefined | JNull => Return EmptyString
                 | _ => to_primitive e
                 end;
               texts ← go l';
               Return (text :: texts)
           end) elements;
      Return (join "," texts)
  | JObject properties =>
      match lookup_property "toString" properties with
      | Some _ => Throw TypeError
      | None => Return "[object Object]"%string
      end
  end.

(** *** The values that survive the round trip *)

(** Trees without [undefined] and [NaN], whose objects name each property
    once. *)
Fixpoint well_formed (v : JSValue) : bool :=
  match v with
  | JUndefined | JNumber NaN => false
  | JNull | JBool _ | JNumber (Fin _) | JString _ => true
  | JArray elements => forallb well_formed elements
  | JObject properties =>
      forallb (fun '(_, e) => well_formed e) properties &&
      bool_decide (NoDup properties.*1)
  end.

(** The fuel a value takes to parse. *)
Fixpoint weight (v : JSValue) : nat :=
  match v with
  | JArray elements => S (sum_list_with (fun e => S (weight e)) elements)
  | JObject properties =>
      S (sum_list_with (fun '(_, e) => S (weight e)) properties)
  | _ => 1%nat
  end.

Definition platform : Platform := {|
  JSON_parse := parse;
  JSON_stringify := print;
  StringToNumber := string_to_number;
  ToPrimitive := to_primitive;
|}.

End MiniJSON.

(** The notions the round trip of the codec is stated with. *)
Module JSONText.
Import PersisterConfig MiniJSON.

(** The first character of a number: a sign or a digit. *)
Definition number_start (c : ascii) : bool :=
  bool_decide (c = "-"%char) || bool_decide (is_Some (digit_value c)).

(** The first character of a printed value starts a value: it is not white
    space and closes no bracket. *)
Definition value_start (s : string) : bool :=
  match s with
  | String c _ =>
      negb (is_whitespace c) && negb (bool_decide (c = "]"%char)) &&
      negb (bool_decide (c = "}"%char))
  | EmptyString => false
  end.

(** The text of an array element and of an object member. *)
Definition element_text (e : JSValue) : string :=
  default "null" (print e).

Definition member_text (kv : string * JSValue) : option string :=
  let '(k, e) := kv in t ← print e; Some (quote k +:+ ":" +:+ t).

Definition member_text' (kv : string * JSValue) : string :=
  quote kv.1 +:+ ":" +:+ element_text kv.2.

(** A value has a text, the text is long enough to pay for the fuel, and
    the parser reads the value back from the text whatever follows it. *)
Definition parses (v : JSValue) : Prop :=
  exists text : string,
    print v = Some text /\
    (weight v <= 2 * String.length text)%nat /\
    forall (fuel : nat) (rest : string),
      (weight v <= fuel)%nat ->
      number_ends rest = true ->
      parse_value fuel (text +:+ rest) = Some (v, rest).

End JSONText.

Module PersisterExamples.
Import PersisterConfig.

(** A persister with every option at its default, in development mode, and
    a small cache snapshot. *)
Definition default_options : PersisterFactoryOptions := {|
  keyPrefix := None;
  maxAge := None;
  busterVersion := None;
  throttleTime := None;
|}.

Definition persister : AsyncStoragePersisterOptions :=
  createPersister MiniJSON.platform true default_options.

(** The same persister in a production build. *)
Definition production_persister : AsyncStoragePersisterOptions :=
  createPersister MiniJSON.platform false default_options.

Definition snapshot : JSValue :=
  JObject [ ("timestamp", JNumber (Fin 1699999999000));
            ("buster", JString EmptyString);
            ("clientState",
              JObject [ ("mutations", JArray []);
                        ("queries",
                          JArray [ JObject [ ("queryHash", JString "posts");
                                             ("state", JObject [("data", JArray [JNumber (Fin 7); JBool true; JNull])]) ] ]) ]) ].

End PersisterExamples.

(** ** OptimisticMutationController: useOptimisticUpdate *)

Module OptimisticUpdate.

Section controller.
Context {K : Type} `{Countable K}.
Context {TData TVariables TError : Type}.

(** JavaScript truthiness of an error value, and [__DEV__]. *)
Variable truthy : TError -> bool.
Variable DEV : bool.

(** The calls made on the query client that act on the cache or on its
    queries, and the lines written to the console. *)
Inductive call : Type :=
  | CancelQueries (queryKey : K)
  | SetQueryData (queryKey : K) (data : TData)
  | InvalidateQueries (queryKey : K).

Inductive console_entry : Type :=
  | LogOptimisticApplied (queryKey : K)
  | ErrorRolledBack (error : TError).

(** The query client as the controller sees it: the cached data by key, where
    an absent key reads as [undefined], and the record of the calls made. *)
Record world : Type := {
  cache : gmap K TData;
  calls : list call;
  console : list console_entry;
}.

Definition M (A : Type) : Type := world -> A * world.

#[export] Instance M_ret : MRet M := fun A a w => (a, w).
#[export] Instance M_bind : MBind M := fun A B k c w =>
  let '(a, w') := c w in k a w'.

Definition record_call (c : call) : M unit := fun w =>
  (tt, {| cache := cache w; calls := calls w ++ [c]; console := console w |}).

(** The capabilities of the execution engine. *)
Definition cancelQueries (queryKey : K) : M unit :=
  record_call (CancelQueries queryKey).

Definition getQueryData (queryKey : K) : M (option TData) := fun w =>
  (cache w !! queryKey, w).

Definition setQueryData (queryKey : K) (data : TData) : M unit := fun w =>
  (tt, {| cache := <[queryKey := data]> (cache w);
          calls := calls w ++ [SetQueryData queryKey data];
          console := console w |}).

Definition invalidateQueries (queryKey : K) : M unit :=
  record_call (InvalidateQueries queryKey).

Definition console_write (e : console_entry) : M unit := fun w =>
  (tt, {| cache := cache w; calls := calls w; console := console w ++ [e] |}).

(** [if (__DEV__) { ... }] *)
Definition when_DEV (c : M unit) : M unit :=
  if DEV then c else mret tt.

(** [if (hook) { hook(...) }] *)
Definition if_defined {A : Type} (hook : option A) (run : A -> M unit) : M unit :=
  match hook with
  | Some h => run h
  | None => mret tt
  end.

(** The context [onMutate] returns. *)
Record context : Type := {
  previousData : option TData;
}.

(** [OptimisticUpdateConfig & UseMutationOptions]: the caller's own
    [onSuccess], [onError] and [onSettled] are the [user...] fields. *)
Record OptimisticUpdateConfig : Type := {
  queryKey : K;
  updater : option TData -> TVariables -> TData;
  invalidateOnSuccess : option bool;
  userOnSuccess : option (TData -> TVariables -> option context -> M unit);
  userOnError : option (TError -> TVariables -> option context -> M unit);
  userOnSettled :
    option (option TData -> option TError -> TVariables -> option context
            -> M unit);
}.

(** The options handed to [useMutation]. *)
Record UseMutationOptions : Type := {
  onMutate : TVariables -> M context;
  onSuccess : option (TData -> TVariables -> option context -> M unit);
  onError : TError -> TVariables -> option context -> M unit;
  onSettled :
    option TData -> option TError -> TVariables -> option context -> M unit;
}.

(** [!error] for [error: TError | null] *)
Definition not_error (error : option TError) : bool :=
  match error with
  | None => true
  | Some e => negb (truthy e)
  end.

(** [context?.previousData] *)
Definition context_previousData (ctx : option context) : option TData :=
  ctx ≫= previousData.

Definition useOptimisticUpdate (config : OptimisticUpdateConfig)
  : UseMutationOptions :=
  let queryKey := queryKey config in
  let updater := updater config in
  let invalidateOnSuccess := default true (invalidateOnSuccess config) in
  {|
    onMutate := fun variables =>
      cancelQueries queryKey;;
      previousData ← getQueryData queryKey;
      match previousData with
      | Some previous =>
          let optimisticData := updater (Some previous) variables in
          setQueryData queryKey optimisticData;;
          when_DEV (console_write (LogOptimisticApplied queryKey))
      | None => mret tt
      end;;
      mret {| previousData := previousData |};
    onSuccess := userOnSuccess config;
    onError := fun error variables ctx =>
      match context_previousData ctx with
      | Some previous =>
          setQueryData queryKey previous;;
          when_DEV (console_write (ErrorRolledBack error))
      | None => mret tt
      end;;
      if_defined (userOnError config)
        (fun onError => onError error variables ctx);
    onSettled := fun data error variables ctx =>
      (if invalidateOnSuccess && not_error error
       then invalidateQueries queryKey
       else mret tt);;
      if_defined (userOnSettled config)
        (fun onSettled => onSettled data error variables ctx);
  |}.

(** How the execution engine drives the options once the remote write has
    settled: on success [onSuccess] then [onSettled(data, null, ...)], on
    failure [onError] then [onSettled(undefined, error, ...)]. *)
Inductive outcome : Type :=
  | Resolved (data : TData)
  | Rejected (error : TError).

Definition settle (options : UseMutationOptions) (result : outcome)
  (variables : TVariables) (ctx : context) : M unit :=
  match result with
  | Resolved data =>
      if_defined (onSuccess options)
        (fun onSuccess => onSuccess data variables (Some ctx));;
      onSettled options (Some data) None variables (Some ctx)
  | Rejected error =>
      onError options error variables (Some ctx);;
      onSettled options None (Some error) variables (Some ctx)
  end.

(** One mutation from start to end. *)
Definition execute (options : UseMutationOptions) (variables : TVariables)
  (result : outcome) : M unit :=
  ctx ← onMutate options variables;
  settle options result variables ctx.

End controller.

(** The example of the specification: a counter of likes under one key, the
    variables a delta, and an error reported as a string (falsy when empty). *)
Definition likes_config
  : OptimisticUpdateConfig (K := string) (TData := Z) (TVariables := Z)
      (TError := string) := {|
  queryKey := "likes";
  updater := fun oldData delta => default 0 oldData + delta;
  invalidateOnSuccess := None;
  userOnSuccess := None;
  userOnError := None;
  userOnSettled := None;
|}.

Definition string_truthy (s : string) : bool :=
  negb (bool_decide (s = EmptyString)).

Definition likes_options
  : UseMutationOptions (K := string) (TData := Z) (TVariables := Z)
      (TError := string) :=
  useOptimisticUpdate string_truthy true likes_config.

Definition likes_world (cached : option Z)
  : world (K := string) (TData := Z) (TError := string) := {|
  cache := match cached with Some n => {[ "likes" := n ]} | None => ∅ end;
  calls := [];
  console := [];
|}.

End OptimisticUpdate.

(** ** RetryHelpers *)

Module RetryHelpers.

(** [a < b]: every comparison with [NaN] is false. *)
Definition number_lt (a b : number) : bool :=
  match a, b with
  | Fin x, Fin y => bool_decide (x < y)
  | _, _ => false
  end.

Section retry.
Context {Error : Type}.

Definition ErrorChecker : Type := Error -> bool.
Definition RetryFunction : Type := number -> Error -> bool.

Definition createConditionalRetry (shouldNotRetry : ErrorChecker)
  (maxRetries : option number) : RetryFunction :=
  let maxRetries := default (Fin 1) maxRetries in
  fun failureCount error =>
    if shouldNotRetry error then false
    else number_lt failureCount maxRetries.

Definition createQuotaAwareRetry (isQuotaError : ErrorChecker)
  (maxRetries : option number) : RetryFunction :=
  let maxRetries := default (Fin 1) maxRetries in
  createConditionalRetry isQuotaError (Some maxRetries).

(** How the execution engine consults a retry function: after a failed
    attempt it calls [retry(failureCount, error)] with the number of failures
    before this one, and tries again while the answer is [true].  [errors]
    are the errors of the successive failed attempts; the result is the
    number of retries made. *)
Fixpoint retries (retry : RetryFunction) (failureCount : nat)
  (errors : list Error) : nat :=
  match errors with
  | [] => O
  | error :: rest =>
      if retry (Fin (Z.of_nat failureCount)) error
      then S (retries retry (S failureCount) rest)
      else O
  end.

(** The errors before the first one the checker picks out. *)
Fixpoint retryable_prefix (shouldNotRetry : ErrorChecker) (errors : list Error)
  : list Error :=
  match errors with
  | [] => []
  | error :: rest =>
      if shouldNotRetry error then []
      else error :: retryable_prefix shouldNotRetry rest
  end.

End retry.

End RetryHelpers.

(** ** usePaginatedQuery: offset-based pagination *)

Module OffsetPagination.

(** [interface OffsetPageParam] *)
Module Param.
Record t : Type := {
  offset : Z;
  limit : Z;
}.
End Param.

(** [interface OffsetPaginatedResponse<TData>] *)
Module Page.
Record t (TData : Type) : Type := {
  items : list TData;
  total : Z;
  offset : Z;
  limit : Z;
}.
Arguments items {TData} _.
Arguments total {TData} _.
Arguments offset {TData} _.
Arguments limit {TData} _.
End Page.

Section pagination.
Context {TData : Type}.

(** What [useOffsetPagination] hands to [useInfiniteQuery], and what it
    derives from the pages loaded so far ([result.data], [None] while there
    are none). *)
Record OffsetPagination : Type := {
  initialPageParam : Param.t;
  getNextPageParam : Page.t TData -> option Param.t;
  flatData : option (list (Page.t TData)) -> list TData;
  totalItems : option (list (Page.t TData)) -> nat;
  total : option (list (Page.t TData)) -> Z;
}.

Definition useOffsetPagination (limit : option Z) : OffsetPagination :=
  let limit := default 20 limit in
  let flatData := fun data : option (list (Page.t TData)) =>
    match data with
    | None => []
    | Some pages => pages ≫= Page.items
    end in
  {|
    initialPageParam := {| Param.offset := 0; Param.limit := limit |};
    getNextPageParam := fun lastPage =>
      let nextOffset := Page.offset lastPage + Page.limit lastPage in
      if bool_decide (nextOffset < Page.total lastPage)
      then Some {| Param.offset := nextOffset; Param.limit := limit |}
      else None;
    flatData := flatData;
    totalItems := fun data => length (flatData data);
    total := fun data =>
      match data with
      | Some pages => default 0 (Page.total <$> last pages)
      | None => 0
      end;
  |}.

(** How the execution engine loads pages: the page for the initial
    parameter, then, while [getNextPageParam] of the last page gives a
    parameter, the page for that parameter.  [fuel] bounds the number of
    pages requested. *)
Fixpoint fetchPages (fuel : nat) (queryFn : Param.t -> Page.t TData)
  (getNextPageParam : Page.t TData -> option Param.t) (pageParam : Param.t)
  : list (Page.t TData) :=
  match fuel with
  | O => []
  | S fuel' =>
      let page := queryFn pageParam in
      page ::
      match getNextPageParam page with
      | Some next => fetchPages fuel' queryFn getNextPageParam next
      | None => []
      end
  end.

Definition fetchAll (fuel : nat) (queryFn : Param.t -> Page.t TData)
  (h : OffsetPagination) : list (Page.t TData) :=
  fetchPages fuel queryFn (getNextPageParam h) (initialPageParam h).

(** A server that pages a fixed list: it answers a request with the slice
    asked for, the size of the list, and the offset and limit of the
    request. *)
Definition paged_server (dataset : list TData) (pageParam : Param.t)
  : Page.t TData := {|
  Page.items :=
    take (Z.to_nat (Param.limit pageParam))
         (drop (Z.to_nat (Param.offset pageParam)) dataset);
  Page.total := Z.of_nat (length dataset);
  Page.offset := Param.offset pageParam;
  Page.limit := Param.limit pageParam;
|}.

End pagination.

End OffsetPagination.

(** ** PersisterConfig: the persisted entry in AsyncStorage *)

Module PersisterStorage.
Import PersisterConfig.

(** AsyncStorage as these functions use it: named string entries, and
    whether the storage answers at all; when it does not, every operation
    rejects. *)
Record storage : Type := {
  entries : gmap string string;
  available : bool;
}.

(** A settled promise. *)
Inductive promise (A : Type) : Type :=
  | Fulfilled (a : A)
  | Rejected.
Arguments Fulfilled {A} a.
Arguments Rejected {A}.

Definition getItem (st : storage) (name : string) : promise (option string) :=
  if available st then Fulfilled (entries st !! name) else Rejected.

Definition removeItem (st : storage) (name : string) : promise storage :=
  if available st
  then Fulfilled {| entries := delete name (entries st);
                    available := available st |}
  else Rejected.

Inductive console_entry : Type :=
  | LogCleared (keyPrefix : string)
  | ErrorClearFailed
  | ErrorSizeFailed.

(** [clearPersistedCache]: the storage afterwards and what was logged; the
    promise it returns always fulfils. *)
Definition clearPersistedCache (DEV : bool) (keyPrefix : option string)
  (st : storage) : storage * list console_entry :=
  let keyPrefix := default "tanstack-query" keyPrefix in
  match removeItem st (keyPrefix +:+ "-cache") with
  | Fulfilled st' => (st', when_DEV DEV [LogCleared keyPrefix])
  | Rejected => (st, when_DEV DEV [ErrorClearFailed])
  end.

(** [new Blob([data]).size]: the number of bytes of the text. *)
Definition Blob_size (data : string) : nat := String.length data.

(** [getPersistedCacheSize]; in [data ? ... : 0] a missing entry and the
    empty string are falsy. *)
Definition getPersistedCacheSize (DEV : bool) (keyPrefix : option string)
  (st : storage) : nat * list console_entry :=
  let keyPrefix := default "tanstack-query" keyPrefix in
  match getItem st (keyPrefix +:+ "-cache") with
  | Fulfilled data =>
      (match data with
       | Some text =>
           if bool_decide (text = EmptyString) then O else Blob_size text
       | None => O
       end, [])
  | Rejected => (O, when_DEV DEV [ErrorSizeFailed])
  end.

End PersisterStorage.

(** ** useOptimisticUpdate: whole mutations *)

Module Mutations.
Import OptimisticUpdate.

Section mutations.
Context {K : Type} `{Countable K}.
Context {TData TVariables TError : Type}.

(** The caller supplies no [onSuccess], [onError] or [onSettled] of its
    own. *)
Definition no_hooks
  (config : OptimisticUpdateConfig (K := K) (TData := TData)
              (TVariables := TVariables) (TError := TError)) : Prop :=
  userOnSuccess config = None /\
  userOnError config = None /\
  userOnSettled config = None.

(** The error [onSettled] is called with: [null] on success. *)
Definition error_of (result : outcome (TData := TData) (TError := TError))
  : option TError :=
  match result with
  | Resolved _ => None
  | Rejected error => Some error
  end.

End mutations.


(** A mutation on another key. *)
Definition views_config
  : OptimisticUpdateConfig (K := string) (TData := Z) (TVariables := Z)
      (TError := string) := {|
  queryKey := "views";
  updater := fun oldData delta => default 0 oldData + delta;
  invalidateOnSuccess := Some false;
  userOnSuccess := None;
  userOnError := None;
  userOnSettled := None;
|}.

(** A cache holding both counters. *)
Definition counters_world
  : world (K := string) (TData := Z) (TError := string) := {|
  cache := {[ "likes" := 5; "views" := 100 ]};
  calls := [];
  console := [];
|}.

End Mutations.

(** * Properties *)

(** ** KeySpace *)

Module KeySpaceProps.
Import KeySpace.

Lemma strict_equals_true (a b : value) :
  strict_equals a b = true <-> a = b /\ a <> VNumber NaN.
Proof.
  unfold strict_equals.
  destruct a as [| |ba|[za|]|sa|la], b as [| |bb|[zb|]|sb|lb];
    rewrite ?bool_decide_eq_true; split;
    try (intros [? ?]); try (intros ?); try split; congruence.
Qed.

Lemma strict_equals_undefined (p : value) :
  strict_equals p VUndefined = true <-> p = VUndefined.
Proof.
  rewrite strict_equals_true. split; [tauto|]. intros ->. split; congruence.
Qed.

(** Strict equality is finer than deep equality. *)
Lemma strict_equals_deep_equal (h : heap) (a b : value) :
  strict_equals a b = true -> deep_equal h a b = true.
Proof.
  intros [-> _]%strict_equals_true.
  destruct b; cbn [deep_equal]; rewrite bool_decide_eq_true_2; reflexivity.
Qed.

Lemma every_from_lookup {A : Type} (f : A -> nat -> bool) (l : list A) :
  forall start : nat,
    every_from f start l = true <->
    forall (i : nat) (x : A), l !! i = Some x -> f x (start + i)%nat = true.
Proof.
  induction l as [|a l IH]; intros start; simpl.
  - split; [intros _ i x Hi; rewrite lookup_nil in Hi; discriminate | reflexivity].
  - rewrite andb_true_iff, IH. split.
    + intros [Ha Hl] [|i] x Hi; simpl in Hi.
      * injection Hi as <-. now rewrite Nat.add_0_r.
      * rewrite Nat.add_succ_r. now apply Hl.
    + intros Hall. split.
      * specialize (Hall 0%nat a eq_refl). now rewrite Nat.add_0_r in Hall.
      * intros i x Hi. specialize (Hall (S i) x Hi).
        now rewrite Nat.add_succ_r in Hall.
Qed.

Lemma every_lookup {A : Type} (f : A -> nat -> bool) (l : list A) :
  every f l = true <->
  forall (i : nat) (x : A), l !! i = Some x -> f x i = true.
Proof. unfold every. now rewrite every_from_lookup. Qed.

(** Whatever matches by [===] matches by the rule of the specification; the
    converse fails. *)
Lemma matchQueryKey_matches_spec (h : heap) (queryKey pattern : key) :
  matchQueryKey queryKey pattern = true -> matches_spec h queryKey pattern.
Proof.
  unfold matchQueryKey. case_bool_decide as Hlen; [discriminate|].
  rewrite every_lookup. intros Hall. split; [lia|]. intros i p Hi.
  specialize (Hall i p Hi). cbv beta in Hall.
  destruct (strict_equals p VUndefined) eqn:Hu.
  - left. now apply strict_equals_undefined.
  - right. unfold at_index in Hall.
    destruct (queryKey !! i) as [k|] eqn:Hk.
    + exists k. split; [reflexivity|].
      change (strict_equals k p = true) in Hall.
      apply strict_equals_true in Hall as [Heq Hnan]. subst k.
      apply strict_equals_deep_equal, strict_equals_true.
      split; [reflexivity | exact Hnan].
    + change (strict_equals VUndefined p = true) in Hall.
      apply strict_equals_true in Hall as [<- _].
      now rewrite (proj2 (strict_equals_undefined VUndefined)) in Hu.
Qed.

(** C2, as the code has it: the key factory validates nothing.  For every
    resource name, the empty one included, [custom] returns the resource
    followed by the segments it was given, and no method of the factory
    throws. *)
Theorem createQueryKeyFactory_no_validation (resource : string) (args : list value) :
  let factory := createQueryKeyFactory resource in
  custom factory args = Return (VString resource :: args) /\
  all factory = Return [VString resource] /\
  lists factory = Return [VString resource; VString "list"] /\
  details factory = Return [VString resource; VString "detail"] /\
  (forall filters, exists k, list_ factory filters = Return k) /\
  (forall id, exists k, detail factory id = Return k).
Proof.
  simpl. repeat split; try reflexivity.
  - intros [f|]; eexists; reflexivity.
  - intros id; eexists; reflexivity.
Qed.

(** C2 refuted: with the empty resource name the factory still builds a
    key; it does not fail with [InvalidKeyError]. *)
Lemma createQueryKeyFactory_empty_resource :
  custom (createQueryKeyFactory EmptyString) [VString "x"] =
    Return [VString EmptyString; VString "x"] /\
  custom (createQueryKeyFactory EmptyString) [VString "x"] <>
    Throw InvalidKeyError.
Proof. split; [reflexivity | discriminate]. Qed.

(** C5, as the code has it: the scoped key starts with the literal ["user"],
    followed by the scope id, the resource and the extra segments. *)
Theorem createScopedQueryKey_user (scopeId resource : string) (args : list value) :
  createScopedQueryKey scopeId resource args =
  Return (VString "user" :: VString scopeId :: VString resource :: args).
Proof. reflexivity. Qed.

(** C5 refuted: the first segment is not ["scope"]. *)
Lemma createScopedQueryKey_not_scope :
  createScopedQueryKey "user123" "posts" [] <>
  Return [VString "scope"; VString "user123"; VString "posts"].
Proof. discriminate. Qed.

(** C3, as the code has it: a key matches a pattern iff the pattern is no
    longer than the key and every pattern segment is [undefined] or strictly
    equal ([===]) to the key segment at its position: primitives by value,
    records by reference. *)
Theorem matchQueryKey_strict (queryKey pattern : key) :
  matchQueryKey queryKey pattern = true <->
  (length pattern <= length queryKey)%nat /\
  forall (i : nat) (p : value),
    pattern !! i = Some p ->
    p = VUndefined \/
    exists k, queryKey !! i = Some k /\ strict_equals k p = true.
Proof.
  unfold matchQueryKey. case_bool_decide as Hlen.
  - split; [discriminate | intros [Hle _]; lia].
  - rewrite every_lookup. split.
    + intros Hall. split; [lia|]. intros i p Hi.
      specialize (Hall i p Hi). cbv beta in Hall.
      destruct (strict_equals p VUndefined) eqn:Hu.
      * left. now apply strict_equals_undefined.
      * right. unfold at_index in Hall.
        destruct (queryKey !! i) as [k|] eqn:Hk; cbn [default] in Hall.
        -- now exists k.
        -- apply strict_equals_true in Hall as [<- _].
           now rewrite (proj2 (strict_equals_undefined VUndefined)) in Hu.
    + intros [_ Hall] i p Hi. cbv beta.
      destruct (Hall i p Hi) as [-> | (k & Hk & Heq)].
      * reflexivity.
      * destruct (strict_equals p VUndefined); [reflexivity|].
        unfold at_index. now rewrite Hk.
Qed.

(** C3 refuted: a pattern whose filter record is deep-equal to the key's, but
    is another object, satisfies the rule of the specification and does not
    match. *)
Lemma matchQueryKey_not_deep :
  let queryKey := [VString "posts"; VString "list"; VObject 0%nat] in
  let pattern := [VString "posts"; VString "list"; VObject 1%nat] in
  matches_spec published queryKey pattern /\
  matchQueryKey queryKey pattern = false.
Proof.
  split; [|reflexivity].
  split; [simpl; lia|].
  intros [|[|[|i]]] p Hi; simpl in Hi; try discriminate;
    injection Hi as <-; right; eexists; (split; [reflexivity|]);
    vm_compute; reflexivity.
Qed.

End KeySpaceProps.

(** ** CacheStrategyRegistry *)

Module QueryClientConfigProps.
Import CacheDefaults QueryClientConfig.

(** Every member of [CacheStrategyType] has its entry. *)
Lemma getCacheStrategy_registered (t : CacheStrategyType) :
  exists c : CacheConfig,
    CacheStrategies !! CacheStrategyType_value t = Some c /\
    getCacheStrategy (CacheStrategyType_value t) = Return (Own c).
Proof. destruct t; eexists; split; vm_compute; reflexivity. Qed.

(** [getCacheStrategy] never throws. *)
Lemma getCacheStrategy_returns (strategy : string) :
  exists p : property, getCacheStrategy strategy = Return p.
Proof. unfold getCacheStrategy. eexists. reflexivity. Qed.

(** C4, as the code has it: for a classification that is not registered
    [getCacheStrategy] does not fail.  It returns what the property read
    [CacheStrategies[strategy]] gives: [undefined], or for a name every
    object inherits from [Object.prototype] that inherited property. *)
Theorem getCacheStrategy_unregistered (strategy : string) :
  CacheStrategies !! strategy = None ->
  getCacheStrategy strategy =
  Return (if bool_decide (strategy ∈ Object_prototype) then Inherited strategy
          else Undefined).
Proof. intros Hnone. unfold getCacheStrategy. now rewrite Hnone. Qed.

(** A classification the table does not have. *)
Lemma getCacheStrategy_unregistered_witness :
  CacheStrategies !! "SESSION" = None /\
  getCacheStrategy "SESSION" = Return Undefined.
Proof.
  split; [vm_compute; reflexivity|].
  rewrite (getCacheStrategy_unregistered "SESSION"); [|vm_compute; reflexivity].
  vm_compute. reflexivity.
Defined.

(** C4 refuted: an unregistered classification is answered with [undefined],
    not with [UnknownStrategyError]. *)
Lemma getCacheStrategy_no_error :
  CacheStrategies !! "SESSION" = None /\
  getCacheStrategy "SESSION" = Return Undefined /\
  getCacheStrategy "SESSION" <> Throw UnknownStrategyError.
Proof. split; [|split]; [vm_compute; reflexivity.. | discriminate]. Qed.

End QueryClientConfigProps.

(** ** The JSON codec: parsing what was printed *)

Module JSONTextProps.
Import PersisterConfig MiniJSON JSONText.

Lemma append_cons (x : ascii) (a b : string) :
  String x a +:+ b = String x (a +:+ b).
Proof. reflexivity. Qed.

Lemma append_nil_l (b : string) : EmptyString +:+ b = b.
Proof. reflexivity. Qed.

Lemma append_assoc (a b c : string) : (a +:+ b) +:+ c = a +:+ (b +:+ c).
Proof.
  induction a as [|x a IH]; [reflexivity|].
  now rewrite !append_cons, IH.
Qed.

Lemma append_nil_r (a : string) : a +:+ EmptyString = a.
Proof.
  induction a as [|x a IH]; [reflexivity|]. now rewrite append_cons, IH.
Qed.

Lemma length_append (a b : string) :
  String.length (a +:+ b) = (String.length a + String.length b)%nat.
Proof.
  induction a as [|x a IH]; [reflexivity|].
  rewrite append_cons. cbn [String.length]. now rewrite IH.
Qed.

Lemma parse_chars_escape_char (c : ascii) (tail : string) :
  parse_chars (escape_char c +:+ tail) =
  '(body, after) ← parse_chars tail; Some (String c body, after).
Proof.
  destruct c as [[] [] [] [] [] [] [] []]; reflexivity.
Qed.

Lemma parse_chars_escape (s rest : string) :
  parse_chars (escape s +:+ String dquote rest) = Some (s, rest).
Proof.
  induction s as [|c s IH]; [reflexivity|].
  cbn [escape]. rewrite append_assoc.
  rewrite parse_chars_escape_char, IH. reflexivity.
Qed.

Lemma parse_string_quote (s rest : string) :
  parse_string (quote s +:+ rest) = Some (s, rest).
Proof.
  unfold quote, parse_string. rewrite append_cons, bool_decide_eq_true_2 by reflexivity.
  rewrite append_assoc, append_cons. apply parse_chars_escape.
Qed.

Lemma digit_value_pretty_N_char (d : N) :
  (d < 10)%N -> digit_value (pretty_N_char d) = Some (Z.of_N d).
Proof.
  intros Hd.
  assert (d = 0 \/ d = 1 \/ d = 2 \/ d = 3 \/ d = 4 \/ d = 5 \/ d = 6 \/
          d = 7 \/ d = 8 \/ d = 9)%N as Hcases by lia.
  repeat (destruct Hcases as [-> | Hcases]; [reflexivity|]).
  subst d. reflexivity.
Qed.

Lemma pretty_N_go_app (x : N) (s t : string) :
  pretty_N_go x s +:+ t = pretty_N_go x (s +:+ t).
Proof.
  revert s. induction (N.lt_wf_0 x) as [x _ IH]; intros s.
  destruct (decide (x = 0)%N) as [->|Hx]; [reflexivity|].
  rewrite (pretty_N_go_step x s), (pretty_N_go_step x (s +:+ t)) by lia.
  rewrite IH by (apply N.div_lt; lia). reflexivity.
Qed.

Lemma parse_digits_pretty_N_go (x : N) (s : string) :
  exists k : Z, 0 <= k /\
    forall acc : Z,
      parse_digits acc (pretty_N_go x s) =
      parse_digits (acc * 10 ^ k + Z.of_N x) s.
Proof.
  revert s. induction (N.lt_wf_0 x) as [x _ IH]; intros s.
  destruct (decide (x = 0)%N) as [->|Hx].
  - exists 0. split; [lia|]. intros acc. rewrite pretty_N_go_0. f_equal. lia.
  - destruct (IH (x `div` 10)%N ltac:(apply N.div_lt; lia)
                (String (pretty_N_char (x `mod` 10)) s)) as (k & Hk & Hgo).
    exists (k + 1). split; [lia|]. intros acc.
    rewrite pretty_N_go_step, Hgo by lia.
    cbn [parse_digits].
    rewrite digit_value_pretty_N_char by (apply N.mod_lt; lia).
    f_equal. rewrite Z.pow_add_r by lia.
    rewrite N2Z.inj_div, N2Z.inj_mod.
    pose proof (Z.div_mod (Z.of_N x) 10 ltac:(lia)). change (Z.of_N 10) with 10. lia.
Qed.

Lemma pretty_N_go_head (x : N) (s : string) :
  (0 < x)%N ->
  exists (d : N) (rest : string),
    (0 < d < 10)%N /\ pretty_N_go x s = String (pretty_N_char d) rest.
Proof.
  revert s. induction (N.lt_wf_0 x) as [x _ IH]; intros s Hx.
  rewrite pretty_N_go_step by lia.
  destruct (decide (x < 10)%N) as [Hsmall|Hbig].
  - rewrite N.div_small, pretty_N_go_0 by lia.
    exists x, s. rewrite N.mod_small by lia. split; [lia|reflexivity].
  - apply IH; [apply N.div_lt; lia|].
    apply N.div_str_pos. lia.
Qed.

Lemma parse_digits_end (acc : Z) (rest : string) :
  number_ends rest = true -> parse_digits acc rest = (acc, rest).
Proof.
  destruct rest as [|c rest]; [reflexivity|]. cbn [number_ends parse_digits].
  destruct (digit_value c); [|reflexivity].
  rewrite bool_decide_eq_true_2 by eauto. discriminate.
Qed.

Lemma parse_int_positive (p : positive) (rest : string) :
  number_ends rest = true ->
  exists (d : N) (tail : string),
    (0 < d < 10)%N /\
    pretty (N.pos p) +:+ rest = String (pretty_N_char d) tail /\
    parse_int (pretty (N.pos p) +:+ rest) = Some (Z.pos p, rest).
Proof.
  intros Hrest. unfold pretty, pretty_N.
  rewrite decide_False by lia. rewrite pretty_N_go_app, append_nil_l.
  destruct (pretty_N_go_head (N.pos p) rest ltac:(lia)) as (d & tail & Hd & Hhead).
  exists d, tail. split; [exact Hd|]. split; [exact Hhead|].
  destruct (parse_digits_pretty_N_go (N.pos p) rest) as (k & Hk & Hgo).
  specialize (Hgo 0). rewrite Hhead in Hgo |- *.
  cbn [parse_digits parse_int] in Hgo |- *.
  rewrite digit_value_pretty_N_char in Hgo |- * by lia.
  destruct (Z.of_N d) as [|q|q] eqn:Hq; try lia.
  replace (10 * 0 + Z.pos q) with (Z.pos q) in Hgo by lia.
  rewrite Hgo, parse_digits_end by exact Hrest.
  now rewrite Z.mul_0_l.
Qed.

Lemma parse_number_nonneg (c : ascii) (tail rest : string) (z : Z) :
  c <> "-"%char ->
  parse_int (String c tail) = Some (z, rest) ->
  number_ends rest = true ->
  parse_number (String c tail) = Some (z, rest).
Proof.
  intros Hc Hint Hrest. unfold parse_number.
  rewrite bool_decide_eq_false_2 by exact Hc. rewrite Hint.
  cbn [mbind option_bind]. now rewrite Hrest.
Qed.

Lemma parse_number_neg (tail rest : string) (z : Z) :
  parse_int tail = Some (z, rest) ->
  number_ends rest = true ->
  parse_number (String "-" tail) = Some (- z, rest).
Proof.
  intros Hint Hrest. unfold parse_number.
  rewrite bool_decide_eq_true_2 by reflexivity. rewrite Hint.
  cbn [mbind option_bind]. now rewrite Hrest.
Qed.

Lemma pretty_N_char_start (d : N) : number_start (pretty_N_char d) = true.
Proof.
  destruct d as [|p]; [reflexivity|].
  do 4 (destruct p as [p|p|]; try reflexivity).
Qed.

Lemma pretty_N_char_not_minus (d : N) : pretty_N_char d <> "-"%char.
Proof.
  destruct d as [|p]; [discriminate|].
  do 4 (destruct p as [p|p|]; try discriminate).
Qed.

(** The text of an integer, followed by [rest]. *)
Lemma pretty_Z_parse (z : Z) (rest : string) :
  number_ends rest = true ->
  exists (c : ascii) (tail : string),
    pretty z +:+ rest = String c tail /\
    number_start c = true /\
    parse_number (String c tail) = Some (z, rest).
Proof.
  intros Hrest. destruct z as [|p|p].
  - exists "0"%char, rest. repeat split.
    apply parse_number_nonneg; [discriminate|reflexivity|exact Hrest].
  - destruct (parse_int_positive p rest Hrest) as (d & tail & Hd & Hhead & Hint).
    exists (pretty_N_char d), tail.
    change (pretty (Z.pos p)) with (pretty (N.pos p)).
    split; [exact Hhead|]. split; [apply pretty_N_char_start|].
    rewrite Hhead in Hint.
    apply parse_number_nonneg; auto using pretty_N_char_not_minus.
  - destruct (parse_int_positive p rest Hrest) as (d & tail & Hd & Hhead & Hint).
    exists "-"%char, (pretty (N.pos p) +:+ rest).
    change (pretty (Z.neg p)) with ("-" +:+ pretty (N.pos p)).
    rewrite append_assoc. split; [reflexivity|]. split; [reflexivity|].
    now apply (parse_number_neg _ rest (Z.pos p)).
Qed.

(** Dispatch on the first character. *)
Lemma parse_value_number (fuel : nat) (c : ascii) (tail : string) :
  number_start c = true ->
  parse_value (S fuel) (String c tail) =
  '(z, rest) ← parse_number (String c tail); Some (JNumber (Fin z), rest).
Proof.
  destruct c as [[] [] [] [] [] [] [] []]; intros Hc;
    try discriminate Hc; reflexivity.
Qed.

Lemma parse_value_string (fuel : nat) (s rest : string) :
  parse_value (S fuel) (quote s +:+ rest) = Some (JString s, rest).
Proof.
  unfold quote. rewrite append_cons, append_assoc, append_cons, append_nil_l.
  cbn [parse_value skip_whitespace].
  change (is_whitespace dquote) with false. cbv iota.
  change (bool_decide (dquote = "["%char)) with false.
  change (bool_decide (dquote = "{"%char)) with false.
  change (bool_decide (dquote = dquote)) with true. cbv iota.
  now rewrite parse_chars_escape.
Qed.

(** Induction on values, with the hypothesis for every element. *)
Lemma JSValue_ind' (Q : JSValue -> Prop) :
  Q JUndefined -> Q JNull -> (forall b, Q (JBool b)) ->
  (forall n, Q (JNumber n)) -> (forall s, Q (JString s)) ->
  (forall elements, Forall Q elements -> Q (JArray elements)) ->
  (forall properties, Forall (fun kv => Q kv.2) properties ->
                      Q (JObject properties)) ->
  forall v, Q v.
Proof.
  intros Hu Hn Hb Hnum Hs Ha Ho.
  fix IH 1.
  intros [| |b|n|s|elements|properties];
    [exact Hu | exact Hn | apply Hb | apply Hnum | apply Hs | apply Ha | apply Ho].
  - induction elements as [|e l IHl]; constructor; [apply IH | exact IHl].
  - induction properties as [|[k e] l IHl]; constructor; [apply IH | exact IHl].
Qed.

Lemma print_array (elements : list JSValue) :
  print (JArray elements) =
  Some ("[" +:+ join "," (element_text <$> elements) +:+ "]").
Proof. reflexivity. Qed.

Lemma print_object (properties : list (string * JSValue)) :
  print (JObject properties) =
  Some ("{" +:+ join "," (omap member_text properties) +:+ "}").
Proof. reflexivity. Qed.

Lemma number_start_value_start (c : ascii) (tail : string) :
  number_start c = true -> value_start (String c tail) = true.
Proof.
  destruct c as [[] [] [] [] [] [] [] []]; intros Hc;
    try discriminate Hc; reflexivity.
Qed.

Lemma value_start_skip (s : string) :
  value_start s = true -> skip_whitespace s = s.
Proof.
  destruct s as [|c s]; [discriminate|]. cbn [value_start skip_whitespace].
  destruct (is_whitespace c); [discriminate|reflexivity].
Qed.

Lemma value_start_expect (c : ascii) (s : string) :
  value_start s = true -> c = "]"%char \/ c = "}"%char -> expect c s = None.
Proof.
  intros Hs Hc. unfold expect. rewrite (value_start_skip s Hs).
  destruct s as [|c' s]; [reflexivity|]. cbn [value_start] in Hs.
  apply andb_true_iff in Hs as [[_ H1]%andb_true_iff H2].
  apply negb_true_iff in H1, H2.
  destruct Hc as [-> | ->]; [rewrite H1 | rewrite H2]; reflexivity.
Qed.

Lemma print_value_start (v : JSValue) (text rest : string) :
  print v = Some text -> value_start (text +:+ rest) = true.
Proof.
  destruct v as [| |[]|[z|]|s|elements|properties]; try discriminate;
    try (intros [= <-]; reflexivity).
  intros [= <-].
    destruct (pretty_Z_parse z EmptyString eq_refl) as (c & tail & Hhead & Hc & _).
  rewrite append_nil_r in Hhead. rewrite Hhead, append_cons.
  now apply number_start_value_start.
Qed.

Lemma parses_element_text (e : JSValue) (rest : string) :
  parses e -> value_start (element_text e +:+ rest) = true.
Proof.
  intros (text & Hprint & _). unfold element_text. rewrite Hprint.
  now apply (print_value_start e).
Qed.

Lemma join_cons (sep x y : string) (l : list string) :
  join sep (x :: y :: l) = x +:+ sep +:+ join sep (y :: l).
Proof. reflexivity. Qed.

Lemma expect_here (c : ascii) (rest : string) :
  is_whitespace c = false -> expect c (String c rest) = Some rest.
Proof.
  intros Hc. unfold expect. cbn [skip_whitespace]. rewrite Hc.
  now rewrite bool_decide_eq_true_2.
Qed.

Lemma expect_other (c c' : ascii) (rest : string) :
  is_whitespace c' = false -> c' <> c -> expect c (String c' rest) = None.
Proof.
  intros Hc Hne. unfold expect. cbn [skip_whitespace]. rewrite Hc.
  now rewrite bool_decide_eq_false_2.
Qed.

(** The elements of an array after its opening bracket. *)
Lemma parse_elements_print (elements : list JSValue) :
  Forall parses elements ->
  elements <> [] ->
  forall (fuel : nat) (acc : list JSValue) (rest : string),
    (sum_list_with (fun e => S (weight e)) elements <= fuel)%nat ->
    parse_elements fuel acc
      (join "," (element_text <$> elements) +:+ String "]" rest) =
    Some (JArray (acc ++ elements), rest).
Proof.
  induction 1 as [|e l He Hl IH]; [congruence|]. intros _ fuel acc rest Hfuel.
  cbn [sum_list_with] in Hfuel.
  destruct fuel as [|fuel]; [lia|]. cbn [parse_elements].
  destruct He as (text & Hprint & _ & Hparse).
  assert (element_text e = text) as Htext by (unfold element_text; now rewrite Hprint).
  destruct l as [|e' l].
  - cbn [fmap list_fmap join]. rewrite Htext.
    rewrite Hparse by (reflexivity || lia). cbn [mbind option_bind].
    rewrite expect_other by (reflexivity || discriminate).
    rewrite expect_here by reflexivity. reflexivity.
  - rewrite fmap_cons, fmap_cons, join_cons, <- fmap_cons, Htext.
    rewrite !append_assoc. change ("," +:+ ?s) with (String "," s).
    rewrite Hparse by (reflexivity || lia). cbn [mbind option_bind].
    rewrite expect_here by reflexivity.
    rewrite IH by (congruence || lia).
    now rewrite <- app_assoc.
Qed.

Lemma omap_member_text (properties : list (string * JSValue)) :
  Forall (fun kv => parses kv.2) properties ->
  omap member_text properties = member_text' <$> properties.
Proof.
  induction 1 as [|[k e] l (text & Hprint & _) _ IH]; [reflexivity|].
  cbn [snd] in Hprint.
  cbn [omap list_omap member_text fmap list_fmap].
  cbn [omap fmap] in IH. rewrite IH.
  unfold member_text', element_text. cbn [fst snd]. now rewrite Hprint.
Qed.

Lemma set_property_fresh (k : string) (v : JSValue)
    (acc : list (string * JSValue)) :
  k ∉ acc.*1 -> set_property k v acc = acc ++ [(k, v)].
Proof.
  induction acc as [|[k' v'] acc IH]; [reflexivity|].
  cbn [fmap list_fmap fst]. intros [Hne Hnotin]%not_elem_of_cons.
  cbn [set_property]. rewrite bool_decide_eq_false_2 by congruence.
  cbn [app]. f_equal. apply IH, Hnotin.
Qed.

Lemma skip_whitespace_quote (k rest : string) :
  skip_whitespace (quote k +:+ rest) = quote k +:+ rest.
Proof. reflexivity. Qed.

Lemma parse_members_print (properties : list (string * JSValue)) :
  Forall (fun kv => parses kv.2) properties ->
  properties <> [] ->
  forall (fuel : nat) (acc : list (string * JSValue)) (rest : string),
    NoDup (acc ++ properties).*1 ->
    (sum_list_with (fun '(_, e) => S (weight e)) properties <= fuel)%nat ->
    parse_members fuel acc
      (join "," (member_text' <$> properties) +:+ String "}" rest) =
    Some (JObject (acc ++ properties), rest).
Proof.
  induction 1 as [|[k e] l He Hl IH]; [congruence|].
  intros _ fuel acc rest Hdup Hfuel.
  cbn [sum_list_with] in Hfuel.
  destruct fuel as [|fuel]; [lia|]. cbn [parse_members].
  destruct He as (text & Hprint & _ & Hparse). cbn [snd] in Hprint, Hparse.
  assert (member_text' (k, e) = quote k +:+ String ":" text) as Htext.
  { unfold member_text', element_text. cbn [fst snd]. now rewrite Hprint. }
  assert (k ∉ acc.*1) as Hfresh.
  { rewrite fmap_app in Hdup. apply NoDup_app in Hdup as (_ & Hdisj & _).
    intros Hin. apply (Hdisj k Hin). cbn [fmap list_fmap fst]. left. }
  assert (NoDup ((acc ++ [(k, e)]) ++ l).*1) as Hdup'.
  { now rewrite <- app_assoc. }
  destruct l as [|kv' l].
  - cbn [fmap list_fmap join]. rewrite Htext, !append_assoc.
    rewrite skip_whitespace_quote, parse_string_quote. cbn [mbind option_bind].
    rewrite append_cons, expect_here by reflexivity. cbn [mbind option_bind].
    rewrite Hparse by (reflexivity || lia). cbn [mbind option_bind].
    rewrite expect_other by (reflexivity || discriminate).
    rewrite expect_here by reflexivity. cbn [mbind option_bind].
    now rewrite set_property_fresh.
  - rewrite fmap_cons, fmap_cons, join_cons, <- fmap_cons, Htext.
    rewrite !append_assoc.
    rewrite skip_whitespace_quote, parse_string_quote. cbn [mbind option_bind].
    rewrite append_cons, expect_here by reflexivity. cbn [mbind option_bind].
    change ("," +:+ ?s) with (String "," s).
    rewrite Hparse by (reflexivity || lia). cbn [mbind option_bind].
    rewrite expect_here by reflexivity.
    rewrite set_property_fresh by exact Hfresh.
    rewrite IH by (congruence || assumption || lia).
    now rewrite <- app_assoc.
Qed.

Lemma parse_value_array (fuel : nat) (s : string) :
  parse_value (S fuel) (String "[" s) =
  match expect "]" s with
  | Some rest => Some (JArray [], rest)
  | None => parse_elements fuel [] s
  end.
Proof. reflexivity. Qed.

Lemma parse_value_object (fuel : nat) (s : string) :
  parse_value (S fuel) (String "{" s) =
  match expect "}" s with
  | Some rest => Some (JObject [], rest)
  | None => parse_members fuel [] s
  end.
Proof. reflexivity. Qed.

(** The fuel of the elements is covered by the length of their text. *)
Lemma weight_elements (elements : list JSValue) :
  Forall parses elements ->
  (sum_list_with (fun e => S (weight e)) elements <=
   2 * String.length (join "," (element_text <$> elements)) + 2)%nat.
Proof.
  induction 1 as [|e l (text & Hprint & Hweight & _) Hl IH]; [cbn; lia|].
  assert (element_text e = text) as Htext by (unfold element_text; now rewrite Hprint).
  cbn [sum_list_with]. destruct l as [|e' l].
  - cbn [fmap list_fmap join sum_list_with]. rewrite Htext. lia.
  - rewrite fmap_cons, fmap_cons, join_cons, <- fmap_cons, Htext.
    rewrite !length_append. cbn [String.length]. lia.
Qed.

Lemma weight_members (properties : list (string * JSValue)) :
  Forall (fun kv => parses kv.2) properties ->
  (sum_list_with (fun '(_, e) => S (weight e)) properties <=
   2 * String.length (join "," (member_text' <$> properties)) + 2)%nat.
Proof.
  induction 1 as [|[k e] l (text & Hprint & Hweight & _) Hl IH]; [cbn; lia|].
  cbn [snd] in Hprint, Hweight.
  assert (String.length text <= String.length (member_text' (k, e)))%nat as Hlen.
  { unfold member_text', element_text. cbn [fst snd]. rewrite Hprint.
    cbn [default id]. rewrite !length_append. lia. }
  cbn [sum_list_with]. destruct l as [|kv' l].
  - cbn [fmap list_fmap join sum_list_with]. lia.
  - rewrite fmap_cons, fmap_cons, join_cons, <- fmap_cons.
    rewrite !length_append. cbn [String.length]. lia.
Qed.

Lemma well_formed_parses (v : JSValue) : well_formed v = true -> parses v.
Proof.
  induction v as [| |b|[z|]|s|elements IH|properties IH] using JSValue_ind';
    intros Hwf; try discriminate Hwf.
  - exists "null". split; [reflexivity|]. split; [cbn; lia|].
    intros [|fuel] rest Hfuel _; [cbn in Hfuel; lia|reflexivity].
  - exists (if b then "true" else "false").
    split; [now destruct b|]. split; [destruct b; cbn; lia|].
    intros [|fuel] rest Hfuel _; [cbn in Hfuel; lia|]. now destruct b.
  - exists (pretty z). split; [reflexivity|]. split.
    + destruct (pretty_Z_parse z EmptyString eq_refl) as (c & tail & Hhead & _).
      rewrite append_nil_r in Hhead. rewrite Hhead. cbn. lia.
    + intros [|fuel] rest Hfuel Hrest; [cbn in Hfuel; lia|].
      destruct (pretty_Z_parse z rest Hrest) as (c & tail & -> & Hc & Hparse).
      now rewrite parse_value_number, Hparse.
  - exists (quote s). split; [reflexivity|]. split; [cbn; lia|].
    intros [|fuel] rest Hfuel _; [cbn in Hfuel; lia|].
    apply parse_value_string.
  - cbn [well_formed] in Hwf. rewrite forallb_forall in Hwf.
    assert (Forall parses elements) as Hall.
    { apply Forall_forall. intros e He.
      rewrite Forall_forall in IH. apply (IH e He), Hwf, list_elem_of_In, He. }
    eexists. split; [apply print_array|]. split.
    + pose proof (weight_elements elements Hall) as Hsum.
      cbn [weight]. rewrite !length_append. cbn [String.length]. lia.
    + intros [|fuel] rest Hfuel Hrest; [cbn in Hfuel; lia|].
      cbn [weight] in Hfuel.
      rewrite !append_assoc, append_cons, append_nil_l.
      change ("]" +:+ rest) with (String "]" rest).
      rewrite parse_value_array.
      destruct elements as [|e l].
      * cbn [fmap list_fmap join]. rewrite append_nil_l.
        now rewrite expect_here.
      * rewrite value_start_expect; [|idtac|now left].
        -- rewrite parse_elements_print by (assumption || congruence || lia).
           reflexivity.
        -- destruct l as [|e' l].
           ++ cbn [fmap list_fmap join].
              apply parses_element_text. now inversion Hall.
           ++ rewrite fmap_cons, fmap_cons, join_cons, !append_assoc.
              apply parses_element_text. now inversion Hall.
  - cbn [well_formed] in Hwf. apply andb_true_iff in Hwf as [Hwf Hdup].
    apply bool_decide_eq_true in Hdup.
    rewrite forallb_forall in Hwf.
    assert (Forall (fun kv => parses kv.2) properties) as Hall.
    { apply Forall_forall. intros [k e] He.
      rewrite Forall_forall in IH. apply (IH (k, e) He).
      apply (Hwf (k, e)), list_elem_of_In, He. }
    eexists. split; [apply print_object|].
    rewrite (omap_member_text properties Hall). split.
    + pose proof (weight_members properties Hall) as Hsum.
      cbn [weight]. rewrite !length_append. cbn [String.length]. lia.
    + intros [|fuel] rest Hfuel Hrest; [cbn in Hfuel; lia|].
      cbn [weight] in Hfuel.
      rewrite !append_assoc, append_cons, append_nil_l.
      change ("}" +:+ rest) with (String "}" rest).
      rewrite parse_value_object.
      destruct properties as [|[k e] l].
      * cbn [fmap list_fmap join]. rewrite append_nil_l.
        now rewrite expect_here.
      * rewrite value_start_expect; [|idtac|now right].
        -- rewrite parse_members_print by (assumption || congruence || lia).
           reflexivity.
        -- destruct l as [|kv' l].
           ++ cbn [fmap list_fmap join]. reflexivity.
           ++ rewrite fmap_cons, fmap_cons, join_cons. reflexivity.
Qed.

(** Round trip. *)
Theorem parse_print (v : JSValue) :
  well_formed v = true ->
  exists text : string, print v = Some text /\ parse text = Return v.
Proof.
  intros (text & Hprint & Hweight & Hparse)%well_formed_parses.
  exists text. split; [exact Hprint|]. unfold parse.
  specialize (Hparse (2 * String.length text + 2)%nat EmptyString).
  rewrite append_nil_r in Hparse. rewrite Hparse by (reflexivity || lia).
  reflexivity.
Qed.

End JSONTextProps.

(** ** PersistenceCodec *)

Module PersisterConfigProps.
Import CacheDefaults PersisterConfig.

Section deserialize.
Variable P : Platform.
Variable DEV : bool.
Variable options : PersisterFactoryOptions.

Let p := createPersister P DEV options.
Let version := busterVersion_of options.

Lemma strict_not_equals_string_same (s : string) :
  strict_not_equals_string (JString s) s = false.
Proof. simpl. now rewrite bool_decide_eq_true_2. Qed.

Lemma strict_not_equals_string_false (v : JSValue) (s : string) :
  strict_not_equals_string v s = false <-> v = JString s.
Proof.
  split; [|intros ->; apply strict_not_equals_string_same].
  destruct v; simpl; try discriminate.
  case_bool_decide; [congruence | discriminate].
Qed.

(** Once the version has been read, the later property reads cannot throw. *)
Lemma Get_total (parsed v : JSValue) (name name' : string) :
  Get parsed name = Return v -> exists v', Get parsed name' = Return v'.
Proof. destruct parsed; simpl; try discriminate; eauto. Qed.

(** Run [deserialize] up to a call whose outcome [H] gives. *)
Ltac run H :=
  unfold p, createPersister; cbn [deserialize];
  repeat (rewrite ?H; cbn [mbind completion_bind]).

(** Step 1: a text that does not parse. *)
Lemma deserialize_syntax_error (now : Z) (s : string) (e : exn) :
  JSON_parse P s = Throw e ->
  deserialize p now s = (JUndefined, when_DEV DEV [ErrorDeserialize e]).
Proof. intros Hparse. run Hparse. reflexivity. Qed.

(** Step 1, continued: a text that parses to [null] has no properties. *)
Lemma deserialize_type_error (now : Z) (s : string) (parsed : JSValue) (e : exn) :
  JSON_parse P s = Return parsed ->
  Get parsed "version" = Throw e ->
  deserialize p now s = (JUndefined, when_DEV DEV [ErrorDeserialize e]).
Proof. intros Hparse Hget. run Hparse. rewrite Hget. reflexivity. Qed.

(** Step 2: the version is checked before the age is computed.  The
    message names the version found; when that is an object that has no
    text, writing the message throws and the [catch] reports the error
    instead. *)
Lemma deserialize_version_mismatch (now : Z) (s : string) (parsed v : JSValue) :
  JSON_parse P s = Return parsed ->
  Get parsed "version" = Return v ->
  strict_not_equals_string v version = true ->
  deserialize p now s =
  (JUndefined,
   when_DEV DEV [match interpolate P v with
                 | Return _ => LogVersionMismatch version v
                 | Throw e => ErrorDeserialize e
                 end]).
Proof.
  intros Hparse Hget Hne. run Hparse. run Hget.
  fold version. rewrite Hne.
  destruct DEV; [|reflexivity].
  destruct (interpolate P v) as [[]|e]; reflexivity.
Qed.

(** Step 3, first: a timestamp whose conversion to a number throws. *)
Lemma deserialize_coercion_error (now : Z) (s : string)
    (parsed timestamp : JSValue) (e : exn) :
  JSON_parse P s = Return parsed ->
  Get parsed "version" = Return (JString version) ->
  Get parsed "timestamp" = Return timestamp ->
  ToNumber P timestamp = Throw e ->
  deserialize p now s = (JUndefined, when_DEV DEV [ErrorDeserialize e]).
Proof.
  intros Hparse Hversion Htimestamp Hthrow. run Hparse. run Hversion.
  fold version. rewrite strict_not_equals_string_same. run Htimestamp.
  rewrite Hthrow. reflexivity.
Qed.

(** Step 3: the age check, for a snapshot of the expected version. *)
Lemma deserialize_checks_age (now : Z) (s : string)
    (parsed timestamp : JSValue) (written : number) :
  JSON_parse P s = Return parsed ->
  Get parsed "version" = Return (JString version) ->
  Get parsed "timestamp" = Return timestamp ->
  ToNumber P timestamp = Return written ->
  let age := number_sub (Fin now) written in
  deserialize p now s =
  if number_gt age (maxAge_of options)
  then (JUndefined, when_DEV DEV [LogCacheExpired age (maxAge_of options)])
  else try_catch (data ← Get parsed "data"; Return (data, []))
         (fun error => (JUndefined, when_DEV DEV [ErrorDeserialize error])).
Proof.
  intros Hparse Hversion Htimestamp Hwritten. run Hparse. run Hversion.
  fold version. rewrite strict_not_equals_string_same. run Htimestamp.
  run Hwritten. cbv zeta. destruct (number_gt _ _); reflexivity.
Qed.

(** The age check is the only exit that reports an expired cache. *)
Lemma deserialize_expired_only (now : Z) (s : string) (age : number) :
  DEV = true ->
  deserialize p now s =
    (JUndefined, [LogCacheExpired age (maxAge_of options)]) ->
  exists parsed timestamp written,
    JSON_parse P s = Return parsed /\
    Get parsed "version" = Return (JString version) /\
    Get parsed "timestamp" = Return timestamp /\
    ToNumber P timestamp = Return written /\
    age = number_sub (Fin now) written /\
    number_gt age (maxAge_of options) = true.
Proof.
  intros HDEV.
  destruct (JSON_parse P s) as [parsed|e] eqn:Hparse.
  2: { rewrite (deserialize_syntax_error now s e Hparse), HDEV. discriminate. }
  destruct (Get parsed "version") as [v|e] eqn:Hversion.
  2: { rewrite (deserialize_type_error now s parsed e Hparse Hversion), HDEV.
       discriminate. }
  destruct (strict_not_equals_string v version) eqn:Hne.
  { rewrite (deserialize_version_mismatch now s parsed v Hparse Hversion Hne), HDEV.
    destruct (interpolate P v); discriminate. }
  apply strict_not_equals_string_false in Hne as ->.
  destruct (Get_total parsed _ "version" "timestamp" Hversion) as [ts Hts].
  destruct (Get_total parsed _ "version" "data" Hversion) as [data Hdata].
  destruct (ToNumber P ts) as [written|e] eqn:Hwritten.
  2: { rewrite (deserialize_coercion_error now s parsed ts e Hparse Hversion
                  Hts Hwritten), HDEV.
       discriminate. }
  rewrite (deserialize_checks_age now s parsed ts written Hparse Hversion Hts
             Hwritten), Hdata.
  cbv zeta. destruct (number_gt _ _) eqn:Hage.
  - rewrite HDEV. intros [= <-]. exists parsed, ts, written.
    repeat split; assumption || reflexivity.
  - discriminate.
Qed.

(** C1, as the code has it: [deserialize] validates in the order decode,
    version, age, and every failure returns the same value, [undefined];
    which check failed is told by the development console only.  A text
    that does not parse gives [undefined]; a parsed version other than the
    expected one gives [undefined] whatever the age (and when that version
    is an object without a text, the console gets the error of writing the
    message in place of the message); a snapshot of the
    expected version whose age exceeds [maxAge] gives [undefined], and only
    such a snapshot is reported as expired. *)
Theorem deserialize_validation_order (now : Z) (s : string) :
  (forall e,
      JSON_parse P s = Throw e ->
      deserialize p now s = (JUndefined, when_DEV DEV [ErrorDeserialize e])) /\
  (forall parsed v,
      JSON_parse P s = Return parsed ->
      Get parsed "version" = Return v ->
      strict_not_equals_string v version = true ->
      deserialize p now s =
      (JUndefined,
       when_DEV DEV [match interpolate P v with
                     | Return _ => LogVersionMismatch version v
                     | Throw e => ErrorDeserialize e
                     end])) /\
  (forall parsed timestamp written,
      JSON_parse P s = Return parsed ->
      Get parsed "version" = Return (JString version) ->
      Get parsed "timestamp" = Return timestamp ->
      ToNumber P timestamp = Return written ->
      let age := number_sub (Fin now) written in
      number_gt age (maxAge_of options) = true ->
      deserialize p now s =
      (JUndefined, when_DEV DEV [LogCacheExpired age (maxAge_of options)])) /\
  (forall age,
      DEV = true ->
      deserialize p now s =
        (JUndefined, [LogCacheExpired age (maxAge_of options)]) ->
      exists parsed,
        JSON_parse P s = Return parsed /\
        Get parsed "version" = Return (JString version) /\
        number_gt age (maxAge_of options) = true).
Proof.
  split; [|split; [|split]].
  - intros e. apply deserialize_syntax_error.
  - intros parsed v. apply deserialize_version_mismatch.
  - intros parsed timestamp written Hparse Hversion Htimestamp Hwritten age Hage.
    rewrite (deserialize_checks_age now s parsed timestamp written)
      by assumption.
    fold age. cbv zeta. now rewrite Hage.
  - intros age HDEV Hexpired.
    destruct (deserialize_expired_only now s age HDEV Hexpired)
      as (parsed & _ & _ & Hparse & Hversion & _ & _ & _ & Hage).
    exists parsed. auto.
Qed.

(** What [serialize] wrote, read back at time [now]. *)
Lemma deserialize_persistData (t0 now : Z) (data : JSValue) (text : string) :
  JSON_parse P text = Return (persistData version t0 data) ->
  deserialize p now text =
  if number_gt (Fin (now - t0)) (maxAge_of options)
  then (JUndefined,
        when_DEV DEV [LogCacheExpired (Fin (now - t0)) (maxAge_of options)])
  else (data, []).
Proof.
  intros Hparse.
  rewrite (deserialize_checks_age now text _ (JNumber (Fin t0)) (Fin t0) Hparse)
    by reflexivity.
  reflexivity.
Qed.

(** C6: round trip.  For a serializable snapshot, the bytes [serialize]
    produced at [t0], read with the same version at any time [now] with
    [now - t0 <= maxAge], give back exactly the snapshot's payload. *)
Theorem deserialize_serialize (t0 now m : Z) (data : JSValue) :
  maxAge_of options = Fin m ->
  serializable P (persistData version t0 data) ->
  now - t0 <= m ->
  exists bytes : string,
    serialize p t0 data = Some bytes /\
    deserialize p now bytes = (data, []).
Proof.
  intros Hmax (text & Hprint & Hparse) Hage.
  exists text. split; [exact Hprint|].
  rewrite (deserialize_persistData t0 now data text Hparse), Hmax.
  cbn [number_gt]. rewrite bool_decide_eq_false_2 by lia. reflexivity.
Qed.

(** C7, as the code has it: the age window is closed at its upper end.  A
    snapshot serialized at [t0] and read with the same version at
    [t0 + maxAge] gives its payload; read at [t0 + maxAge + 1] it is
    expired: [deserialize] returns [undefined] from the age check, the value
    of every other failure, and names the expiry on the development console
    only. *)
Theorem deserialize_age_boundary (t0 m : Z) (data : JSValue) :
  maxAge_of options = Fin m ->
  serializable P (persistData version t0 data) ->
  exists bytes : string,
    serialize p t0 data = Some bytes /\
    deserialize p (t0 + m) bytes = (data, []) /\
    deserialize p (t0 + m + 1) bytes =
    (JUndefined, when_DEV DEV [LogCacheExpired (Fin (m + 1)) (Fin m)]).
Proof.
  intros Hmax (text & Hprint & Hparse).
  exists text. split; [exact Hprint|].
  rewrite !(deserialize_persistData t0 _ data text Hparse), Hmax.
  cbn [number_gt]. split.
  - rewrite bool_decide_eq_false_2 by lia. reflexivity.
  - rewrite bool_decide_eq_true_2 by lia.
    replace (t0 + m + 1 - t0) with (m + 1) by lia. reflexivity.
Qed.

End deserialize.

(** *** The codec at work *)

Import PersisterExamples.

(** The example snapshot, wrapped by [serialize], is serializable. *)
Lemma snapshot_serializable :
  serializable MiniJSON.platform (persistData "1" 1700000000000 snapshot).
Proof. eexists. split; vm_compute; reflexivity. Defined.

(** On this codec every well-formed tree is serializable, whatever the
    version and the time it is wrapped with. *)
Lemma well_formed_serializable (version : string) (t0 : Z) (data : JSValue) :
  MiniJSON.well_formed data = true ->
  serializable MiniJSON.platform (persistData version t0 data).
Proof.
  intros Hwf. apply JSONTextProps.parse_print.
  unfold persistData. cbn [MiniJSON.well_formed forallb].
  rewrite Hwf. reflexivity.
Qed.

(** The round trip on this codec, for every well-formed snapshot. *)
Lemma round_trip_well_formed (DEV : bool) (options : PersisterFactoryOptions)
    (t0 now m : Z) (data : JSValue) :
  maxAge_of options = Fin m ->
  MiniJSON.well_formed data = true ->
  now - t0 <= m ->
  let p := createPersister MiniJSON.platform DEV options in
  exists bytes : string,
    serialize p t0 data = Some bytes /\
    deserialize p now bytes = (data, []).
Proof.
  intros Hmax Hwf Hage p.
  destruct (well_formed_serializable (busterVersion_of options) t0 data Hwf)
    as (text & Hprint & Hparse).
  exists text. split; [exact Hprint|]. unfold p.
  rewrite (deserialize_persistData _ _ _ t0 now data text Hparse), Hmax.
  cbn [number_gt]. now rewrite bool_decide_eq_false_2 by lia.
Qed.

(** C1 refuted: a text that does not parse and a text of another version
    both make [deserialize] return [undefined], so no reading of the
    returned value tells the causes apart. *)
Lemma deserialize_cause_indistinguishable :
  ~ exists view : JSValue -> restored,
      distinguishes_cause MiniJSON.platform view.
Proof.
  intros [view Hview].
  destruct (Hview true default_options 0 "{") as [Hdecode _].
  destruct (Hview true default_options 0 "{}") as (_ & Hversion & _).
  specialize (Hdecode SyntaxError eq_refl).
  specialize (Hversion (JObject []) JUndefined eq_refl eq_refl eq_refl).
  vm_compute in Hdecode, Hversion. congruence.
Qed.

(** C7 refuted: in a production build the example snapshot read one
    millisecond after its [maxAge] and a text that does not parse give the
    same result, [undefined] and an empty log, so no reading of the returned
    value makes the first [Invalid(Expired)] and the second
    [Invalid(DecodeError)]. *)
Lemma deserialize_expired_untagged :
  exists bytes : string,
    serialize production_persister 1700000000000 snapshot = Some bytes /\
    deserialize production_persister (1700000000000 + 86400000 + 1) bytes =
      (JUndefined, []) /\
    deserialize production_persister (1700000000000 + 86400000 + 1) "{" =
      (JUndefined, []) /\
    forall view : JSValue -> restored,
      view (deserialize production_persister
              (1700000000000 + 86400000 + 1) bytes).1 =
        InvalidSnapshot Expired ->
      view (deserialize production_persister
              (1700000000000 + 86400000 + 1) "{").1 <>
        InvalidSnapshot DecodeError.
Proof.
  destruct snapshot_serializable as (text & Hprint & Hparse).
  exists text. split; [exact Hprint|].
  assert (Hexpired :
    deserialize production_persister (1700000000000 + 86400000 + 1) text =
      (JUndefined, [])).
  { unfold production_persister.
    rewrite (deserialize_persistData MiniJSON.platform false default_options
               1700000000000 _ snapshot text Hparse).
    reflexivity. }
  assert (Hdecode :
    deserialize production_persister (1700000000000 + 86400000 + 1) "{" =
      (JUndefined, [])).
  { apply (deserialize_syntax_error MiniJSON.platform false default_options
             _ "{" SyntaxError).
    vm_compute; reflexivity. }
  split; [exact Hexpired|]. split; [exact Hdecode|].
  intros view. rewrite Hexpired, Hdecode. cbn [fst]. congruence.
Qed.

(** The three failures on the default persister: a text that does not
    parse, an array (it has no version), and the example snapshot read long
    after it was written. *)
Lemma deserialize_validation_order_witness :
  let text := default EmptyString (serialize persister 1700000000000 snapshot) in
  deserialize persister 0 "{" = (JUndefined, [ErrorDeserialize SyntaxError]) /\
  deserialize persister 0 "[2]" =
    (JUndefined, [LogVersionMismatch "1" JUndefined]) /\
  deserialize persister 1800000000000 text =
    (JUndefined,
     [LogCacheExpired (Fin 100000000000) (Fin DEFAULT_GC_TIME.LONG)]) /\
  exists parsed,
    JSON_parse MiniJSON.platform text = Return parsed /\
    Get parsed "version" = Return (JString "1") /\
    number_gt (Fin 100000000000) (Fin DEFAULT_GC_TIME.LONG) = true.
Proof.
  split; [|split; [|split]].
  - apply (proj1 (deserialize_validation_order MiniJSON.platform true
                    default_options 0 "{") SyntaxError).
    vm_compute; reflexivity.
  - apply (proj1 (proj2 (deserialize_validation_order MiniJSON.platform true
                           default_options 0 "[2]"))
             (JArray [JNumber (Fin 2)]) JUndefined);
      vm_compute; reflexivity.
  - apply (proj1 (proj2 (proj2 (deserialize_validation_order MiniJSON.platform
                                  true default_options 1800000000000 _)))
             (persistData "1" 1700000000000 snapshot)
             (JNumber (Fin 1700000000000)) (Fin 1700000000000));
      vm_compute; reflexivity.
  - apply (proj2 (proj2 (proj2 (deserialize_validation_order MiniJSON.platform
                                  true default_options 1800000000000 _)))
             (Fin 100000000000));
      vm_compute; reflexivity.
Defined.

(** The example snapshot, read one hour after it was written. *)
Lemma deserialize_serialize_witness :
  maxAge_of default_options = Fin 86400000 /\
  serializable MiniJSON.platform (persistData "1" 1700000000000 snapshot) /\
  1700003600000 - 1700000000000 <= 86400000 /\
  exists bytes : string,
    serialize persister 1700000000000 snapshot = Some bytes /\
    deserialize persister 1700003600000 bytes = (snapshot, []).
Proof.
  split; [reflexivity|].
  split; [apply snapshot_serializable|].
  split; [lia|].
  apply (deserialize_serialize MiniJSON.platform true default_options
           1700000000000 1700003600000 86400000 snapshot).
  - reflexivity.
  - apply snapshot_serializable.
  - lia.
Defined.

(** The example snapshot, read after exactly 24 hours and one millisecond
    later. *)
Lemma deserialize_age_boundary_witness :
  maxAge_of default_options = Fin 86400000 /\
  serializable MiniJSON.platform (persistData "1" 1700000000000 snapshot) /\
  exists bytes : string,
    serialize persister 1700000000000 snapshot = Some bytes /\
    deserialize persister (1700000000000 + 86400000) bytes = (snapshot, []) /\
    deserialize persister (1700000000000 + 86400000 + 1) bytes =
    (JUndefined, [LogCacheExpired (Fin (86400000 + 1)) (Fin 86400000)]).
Proof.
  split; [reflexivity|].
  split; [apply snapshot_serializable|].
  apply (deserialize_age_boundary MiniJSON.platform true default_options
           1700000000000 86400000 snapshot).
  - reflexivity.
  - apply snapshot_serializable.
Defined.

End PersisterConfigProps.

(** ** OptimisticMutationController *)

Module OptimisticUpdateProps.
Import OptimisticUpdate.

Section controller.
Context {K : Type} `{Countable K}.
Context {TData TVariables TError : Type}.
Variable truthy : TError -> bool.
Variable DEV : bool.
Variable config :
  OptimisticUpdateConfig (K := K) (TData := TData) (TVariables := TVariables)
    (TError := TError).

Let options := useOptimisticUpdate truthy DEV config.
Let key := queryKey config.

Implicit Types (w : world (K := K) (TData := TData) (TError := TError)).
Implicit Types (v : TData) (variables : TVariables) (error : TError).

(** The development log touches neither the cache nor the calls. *)
Lemma when_DEV_console (e : console_entry) w :
  exists w',
    when_DEV DEV (console_write e) w = (tt, w') /\
    cache w' = cache w /\ calls w' = calls w.
Proof.
  unfold when_DEV. destruct DEV; eexists; (split; [reflexivity|]); split; reflexivity.
Qed.

(** [onMutate] when the key holds a value. *)
Lemma onMutate_present w v variables :
  cache w !! key = Some v ->
  exists w1,
    onMutate options variables w = ({| previousData := Some v |}, w1) /\
    cache w1 = <[key := updater config (Some v) variables]> (cache w) /\
    calls w1 =
      calls w ++ [CancelQueries key;
                  SetQueryData key (updater config (Some v) variables)].
Proof.
  intros Hv. unfold options, useOptimisticUpdate. cbn [onMutate]. fold key.
  unfold mbind, M_bind, cancelQueries, record_call, getQueryData.
  cbn [cache calls console]. rewrite Hv. unfold setQueryData.
  cbn [cache calls console].
  match goal with
  | |- context [when_DEV DEV (console_write ?e) ?w0] =>
      destruct (when_DEV_console e w0) as (w' & -> & Hcache & Hcalls)
  end.
  exists w'. split; [reflexivity|]. rewrite Hcache, Hcalls. cbn [cache calls].
  split; [reflexivity|]. now rewrite <- app_assoc.
Qed.

(** [onError] with a snapshot: the value is written back, then the caller's
    own [onError] runs. *)
Lemma onError_present w v variables error :
  exists w2,
    onError options error variables (Some {| previousData := Some v |}) w =
    if_defined (userOnError config)
      (fun hook => hook error variables (Some {| previousData := Some v |})) w2 /\
    cache w2 = <[key := v]> (cache w) /\
    calls w2 = calls w ++ [SetQueryData key v].
Proof.
  unfold options, useOptimisticUpdate. cbn [onError]. fold key.
  cbn [context_previousData mbind option_bind previousData].
  unfold mbind at 1 2, M_bind, setQueryData.
  match goal with
  | |- context [when_DEV DEV (console_write ?e) ?w0] =>
      destruct (when_DEV_console e w0) as (w' & -> & Hcache & Hcalls)
  end.
  exists w'. split; [reflexivity|]. now rewrite Hcache, Hcalls.
Qed.

(** [onError] without a snapshot is the caller's own [onError] and nothing
    else. *)
Lemma onError_absent w variables error (ctx : option context) :
  context_previousData ctx = None ->
  onError options error variables ctx w =
  if_defined (userOnError config) (fun hook => hook error variables ctx) w.
Proof.
  intros Hctx. unfold options, useOptimisticUpdate. cbn [onError].
  rewrite Hctx. reflexivity.
Qed.

(** What [onSettled] does before the caller's own [onSettled] runs. *)
Lemma onSettled_invalidation w (data : option TData) (error : option TError)
    variables (ctx : option context) :
  onSettled options data error variables ctx w =
  if_defined (userOnSettled config)
    (fun hook => hook data error variables ctx)
    (if default true (invalidateOnSuccess config) && not_error truthy error
     then {| cache := cache w;
             calls := calls w ++ [InvalidateQueries key];
             console := console w |}
     else w).
Proof.
  unfold options, useOptimisticUpdate. cbn [onSettled]. fold key.
  unfold mbind, M_bind.
  destruct (default true (invalidateOnSuccess config) && not_error truthy error);
    reflexivity.
Qed.

(** On success, [onSettled(data, null, ...)], the key is invalidated unless
    the configuration turns that off, and the cache is left as it is. *)
Lemma onSettled_success w (data : TData) variables (ctx : option context) :
  invalidateOnSuccess config <> Some false ->
  onSettled options (Some data) None variables ctx w =
  if_defined (userOnSettled config)
    (fun hook => hook (Some data) None variables ctx)
    {| cache := cache w;
       calls := calls w ++ [InvalidateQueries key];
       console := console w |}.
Proof.
  intros Hdefault. rewrite onSettled_invalidation.
  destruct (invalidateOnSuccess config) as [[|]|]; try reflexivity.
  congruence.
Qed.

(** On failure with a truthy error, as every [Error] object is, nothing is
    invalidated. *)
Lemma onSettled_failure_truthy w error variables (ctx : option context) :
  truthy error = true ->
  onSettled options None (Some error) variables ctx w =
  if_defined (userOnSettled config)
    (fun hook => hook None (Some error) variables ctx) w.
Proof.
  intros Htruthy. rewrite onSettled_invalidation.
  cbn [not_error]. rewrite Htruthy, andb_false_r. reflexivity.
Qed.

(** On failure with a falsy error, [!error] holds and the key is invalidated
    as if the write had succeeded. *)
Lemma onSettled_failure_falsy w error variables (ctx : option context) :
  truthy error = false ->
  invalidateOnSuccess config <> Some false ->
  onSettled options None (Some error) variables ctx w =
  if_defined (userOnSettled config)
    (fun hook => hook None (Some error) variables ctx)
    {| cache := cache w;
       calls := calls w ++ [InvalidateQueries key];
       console := console w |}.
Proof.
  intros Hfalsy Hdefault. rewrite onSettled_invalidation.
  cbn [not_error]. rewrite Hfalsy.
  destruct (invalidateOnSuccess config) as [[|]|]; try reflexivity.
  congruence.
Qed.

(** Begin, then fail: the two steps and the cache after them. *)
Lemma optimistic_rollback_steps w v variables error :
  cache w !! key = Some v ->
  exists w1 w2,
    onMutate options variables w = ({| previousData := Some v |}, w1) /\
    onError options error variables (Some {| previousData := Some v |}) w1 =
      if_defined (userOnError config)
        (fun hook => hook error variables (Some {| previousData := Some v |}))
        w2 /\
    cache w2 = cache w.
Proof.
  intros Hv.
  destruct (onMutate_present w v variables Hv) as (w1 & Hrun & Hcache & _).
  destruct (onError_present w1 v variables error) as (w2 & Hrun2 & Hcache2 & _).
  exists w1, w2. split; [exact Hrun|]. split; [exact Hrun2|].
  rewrite Hcache2, Hcache, insert_insert_eq. now apply insert_id.
Qed.

(** C8: optimistic rollback.  When the key holds [v], [onMutate] snapshots
    [v] and writes [updater(v, variables)] at the key at once, so that a read
    of the key gives the optimistic value; the [onError] that follows writes
    [v] back, after which the cache is what it was before the mutation
    began. *)
Theorem optimistic_rollback w v variables :
  cache w !! key = Some v ->
  exists w1,
    onMutate options variables w = ({| previousData := Some v |}, w1) /\
    getQueryData key w1 = (Some (updater config (Some v) variables), w1) /\
    forall error,
    exists w2,
      onError options error variables (Some {| previousData := Some v |}) w1 =
      if_defined (userOnError config)
        (fun hook => hook error variables (Some {| previousData := Some v |}))
        w2 /\
      cache w2 !! key = Some v /\
      cache w2 = cache w.
Proof.
  intros Hv.
  destruct (onMutate_present w v variables Hv) as (w1 & Hrun & Hcache & _).
  exists w1. split; [exact Hrun|]. split.
  - unfold getQueryData. now rewrite Hcache, lookup_insert_eq.
  - intros error.
    destruct (onError_present w1 v variables error) as (w2 & Hrun2 & Hcache2 & _).
    exists w2. split; [exact Hrun2|]. rewrite Hcache2, Hcache. split.
    + apply lookup_insert_eq.
    + rewrite insert_insert_eq. now apply insert_id.
Qed.

(** C10: absent snapshot.  When the key holds no value, [onMutate] writes
    nothing: it cancels the reads of the key, leaves the cache as it is and
    records [previousData] as absent; the [onError] of that mutation makes no
    restore write either, it only runs the caller's own [onError]. *)
Theorem absent_snapshot_no_write w variables :
  cache w !! key = None ->
  onMutate options variables w =
    ({| previousData := None |},
     {| cache := cache w;
        calls := calls w ++ [CancelQueries key];
        console := console w |}) /\
  forall error w',
    onError options error variables (Some {| previousData := None |}) w' =
    if_defined (userOnError config)
      (fun hook => hook error variables (Some {| previousData := None |})) w'.
Proof.
  intros Hnone. split.
  - unfold options, useOptimisticUpdate. cbn [onMutate]. fold key.
    unfold mbind, M_bind, cancelQueries, record_call, getQueryData.
    cbn [cache calls console]. rewrite Hnone. reflexivity.
  - intros error w'. now apply onError_absent.
Qed.

(** The whole mutation, when the caller supplies no hooks of its own: a
    failed write leaves the cache as it was before the mutation began. *)
Lemma execute_rejected_cache w v variables error :
  userOnError config = None ->
  userOnSettled config = None ->
  cache w !! key = Some v ->
  cache (execute options variables (Rejected error) w).2 = cache w.
Proof.
  intros HonError HonSettled Hv.
  destruct (optimistic_rollback_steps w v variables error Hv)
    as (w1 & w2 & Hmutate & Herror & Hcache).
  unfold execute, settle, mbind, M_bind. rewrite Hmutate.
  rewrite Herror, HonError. cbn [if_defined mret M_ret].
  rewrite onSettled_invalidation, HonSettled. cbn [if_defined mret M_ret snd].
  destruct (_ && _); exact Hcache.
Qed.

End controller.


(** *** The example of the specification *)

(** Five likes, one more, and the write fails. *)
Lemma optimistic_rollback_witness :
  cache (likes_world (Some 5)) !! "likes" = Some 5 /\
  exists w1,
    onMutate likes_options 1 (likes_world (Some 5)) =
      ({| previousData := Some 5 |}, w1) /\
    getQueryData "likes" w1 = (Some 6, w1) /\
    forall error : string,
    exists w2,
      onError likes_options error 1 (Some {| previousData := Some 5 |}) w1 =
        (tt, w2) /\
      cache w2 !! "likes" = Some 5 /\
      cache w2 = cache (likes_world (Some 5)).
Proof.
  split; [reflexivity|].
  apply (optimistic_rollback string_truthy true likes_config
           (likes_world (Some 5)) 5 1).
  reflexivity.
Defined.

(** The same mutation on an empty cache. *)
Lemma absent_snapshot_no_write_witness :
  cache (likes_world None) !! "likes" = None /\
  onMutate likes_options 1 (likes_world None) =
    ({| previousData := None |},
     {| cache := ∅; calls := [CancelQueries "likes"]; console := [] |}) /\
  forall (error : string) w',
    onError likes_options error 1 (Some {| previousData := None |}) w' =
    (tt, w').
Proof.
  split; [reflexivity|].
  apply (absent_snapshot_no_write string_truthy true likes_config
           (likes_world None) 1).
  reflexivity.
Defined.

(** A write that succeeds: the key is invalidated and the optimistic value
    stays in the cache. *)
Example execute_resolved :
  execute likes_options 1 (Resolved 6) (likes_world (Some 5)) =
  (tt, {| cache := {[ "likes" := 6 ]};
          calls := [CancelQueries "likes"; SetQueryData "likes" 6;
                    InvalidateQueries "likes"];
          console := [LogOptimisticApplied "likes"] |}).
Proof. vm_compute. reflexivity. Qed.

(** A write that fails with an [Error]-like, truthy error: rollback, and no
    invalidation. *)
Example execute_rejected_truthy :
  execute likes_options 1 (Rejected "timeout") (likes_world (Some 5)) =
  (tt, {| cache := {[ "likes" := 5 ]};
          calls := [CancelQueries "likes"; SetQueryData "likes" 6;
                    SetQueryData "likes" 5];
          console := [LogOptimisticApplied "likes";
                      ErrorRolledBack "timeout"] |}).
Proof. vm_compute. reflexivity. Qed.

(** C9 at the failing input: a write rejected with the empty string, a falsy
    error.  [onError] rolls the cache back and then [onSettled] reads
    [!error] as success and invalidates the key, although the write
    failed. *)
Theorem execute_rejected_falsy_invalidates :
  execute likes_options 1 (Rejected EmptyString) (likes_world (Some 5)) =
  (tt, {| cache := {[ "likes" := 5 ]};
          calls := [CancelQueries "likes"; SetQueryData "likes" 6;
                    SetQueryData "likes" 5; InvalidateQueries "likes"];
          console := [LogOptimisticApplied "likes";
                      ErrorRolledBack EmptyString] |}).
Proof. vm_compute. reflexivity. Qed.

End OptimisticUpdateProps.

(** ** KeySpace: how keys and patterns compose *)

Module KeySpaceLaws.
Import KeySpace KeySpaceProps.

(** Matching, position by position: a pattern segment that is not
    [undefined] must be the key's segment and must not be [NaN]. *)
Lemma matchQueryKey_lookup (queryKey pattern : key) :
  matchQueryKey queryKey pattern = true <->
  (length pattern <= length queryKey)%nat /\
  forall (i : nat) (x : value),
    pattern !! i = Some x -> x <> VUndefined ->
    queryKey !! i = Some x /\ x <> VNumber NaN.
Proof.
  unfold matchQueryKey. case_bool_decide as Hlen.
  - split; [discriminate | intros [Hle _]; lia].
  - rewrite every_lookup. split.
    + intros Hall. split; [lia|]. intros i x Hi Hx.
      specialize (Hall i x Hi). cbv beta in Hall.
      destruct (strict_equals x VUndefined) eqn:Hu.
      { now apply strict_equals_undefined in Hu. }
      unfold at_index in Hall. destruct (queryKey !! i) as [k|] eqn:Hk.
      * change (strict_equals k x = true) in Hall.
        apply strict_equals_true in Hall as [-> Hnan]. auto.
      * change (strict_equals VUndefined x = true) in Hall.
        apply strict_equals_true in Hall as [<- _]. congruence.
    + intros [_ Hall] i x Hi. cbv beta.
      destruct (strict_equals x VUndefined) eqn:Hu; [reflexivity|].
      destruct (Hall i x Hi) as [Hk Hnan].
      { intros ->. now rewrite (proj2 (strict_equals_undefined VUndefined)) in Hu. }
      unfold at_index. rewrite Hk. apply strict_equals_true. auto.
Qed.

(** A key matches each of its prefixes that holds no [NaN]. *)
Lemma matchQueryKey_prefix (pattern rest : key) :
  VNumber NaN ∉ pattern -> matchQueryKey (pattern ++ rest) pattern = true.
Proof.
  intros Hnan. apply matchQueryKey_lookup. split.
  - rewrite length_app. lia.
  - intros i x Hi _. split.
    + now apply lookup_app_l_Some.
    + intros ->. apply Hnan. eapply list_elem_of_lookup_2, Hi.
Qed.

(** A pattern whose first segment is another defined value than the key's
    first segment does not match. *)
Lemma matchQueryKey_head_differs (a b : value) (queryKey pattern : key) :
  b <> VUndefined -> a <> b ->
  matchQueryKey (a :: queryKey) (b :: pattern) = false.
Proof.
  intros Hb Hab. apply not_true_is_false. intros Hmatch.
  apply matchQueryKey_lookup in Hmatch as [_ Hall].
  destruct (Hall 0%nat b eq_refl Hb) as [Hk _]. simpl in Hk. congruence.
Qed.

Lemma matchQueryKey_cons (a : value) (queryKey pattern : key) :
  a <> VNumber NaN ->
  matchQueryKey (a :: queryKey) (a :: pattern) = matchQueryKey queryKey pattern.
Proof.
  intros Ha. apply eq_true_iff_eq. rewrite !matchQueryKey_lookup. split.
  - intros [Hlen Hall]. split; [simpl in Hlen; lia|].
    intros i x Hi Hx. apply (Hall (S i) x Hi Hx).
  - intros [Hlen Hall]. split; [simpl; lia|].
    intros [|i] x Hi Hx; simpl in Hi |- *.
    + injection Hi as <-. auto.
    + now apply Hall.
Qed.

(** X1: a key matches each of its own prefixes, the empty pattern and the
    key itself included, exactly when the prefix holds no [NaN]: a [NaN]
    segment is equal to nothing, not even to itself. *)
Theorem matchQueryKey_prefix_iff (pattern rest : key) :
  matchQueryKey (pattern ++ rest) pattern = true <-> VNumber NaN ∉ pattern.
Proof.
  split; [|apply matchQueryKey_prefix].
  intros [_ Hall]%matchQueryKey_lookup [i Hi]%list_elem_of_lookup_1.
  destruct (Hall i (VNumber NaN) Hi) as [_ Hnan]; [discriminate|].
  now apply Hnan.
Qed.

(** X2: matching is kept when the key grows: what a pattern matches, it
    matches with any further segments appended to the key. *)
Theorem matchQueryKey_extend (queryKey pattern extra : key) :
  matchQueryKey queryKey pattern = true ->
  matchQueryKey (queryKey ++ extra) pattern = true.
Proof.
  rewrite !matchQueryKey_lookup. intros [Hlen Hall]. split.
  - rewrite length_app. lia.
  - intros i x Hi Hx. destruct (Hall i x Hi Hx) as [Hk Hnan].
    split; [now apply lookup_app_l_Some | exact Hnan].
Qed.

Lemma matchQueryKey_extend_witness :
  matchQueryKey [VString "posts"; VString "list"] [VString "posts"] = true /\
  matchQueryKey ([VString "posts"; VString "list"] ++ [VNumber (Fin 7)])
                [VString "posts"] = true.
Proof.
  split; [reflexivity|].
  apply (matchQueryKey_extend [VString "posts"; VString "list"]
           [VString "posts"] [VNumber (Fin 7)]).
  reflexivity.
Defined.

(** X3: matching is transitive: when a key matches a pattern and the pattern,
    read as a key, matches a second pattern, the key matches the second
    pattern. *)
Theorem matchQueryKey_trans (queryKey pattern pattern' : key) :
  matchQueryKey queryKey pattern = true ->
  matchQueryKey pattern pattern' = true ->
  matchQueryKey queryKey pattern' = true.
Proof.
  rewrite !matchQueryKey_lookup. intros [Hlen Hall] [Hlen' Hall']. split; [lia|].
  intros i x Hi Hx. destruct (Hall' i x Hi Hx) as [Hp Hnan].
  destruct (Hall i x Hp Hx) as [Hk _]. auto.
Qed.

Lemma matchQueryKey_trans_witness :
  matchQueryKey [VString "posts"; VString "detail"; VNumber (Fin 7)]
                [VString "posts"; VString "detail"] = true /\
  matchQueryKey [VString "posts"; VString "detail"]
                [VUndefined; VString "detail"] = true /\
  matchQueryKey [VString "posts"; VString "detail"; VNumber (Fin 7)]
                [VUndefined; VString "detail"] = true.
Proof.
  split; [reflexivity|]. split; [reflexivity|].
  apply (matchQueryKey_trans
           [VString "posts"; VString "detail"; VNumber (Fin 7)]
           [VString "posts"; VString "detail"]
           [VUndefined; VString "detail"]); reflexivity.
Defined.

Ltac no_NaN :=
  repeat (apply not_elem_of_cons; split; [discriminate|]); apply not_elem_of_nil.

(** A built key [c] extends [pattern]. *)
Ltac extends pattern :=
  eexists; split; [reflexivity|]; apply (matchQueryKey_prefix pattern); no_NaN.

(** X4: the keys of a resource form a hierarchy.  Every key built for a
    resource, by the factory or by [createPaginatedQueryKey] and
    [createInfiniteQueryKey], matches the factory's [all()]; every list key,
    the paginated one included, matches [lists()]; every detail key matches
    [details()]. *)
Theorem factory_hierarchy (resource : string) (filters params : option loc)
    (pagination : loc) (id : string + number) (args : list value) :
  let f := createQueryKeyFactory resource in
  exists pall plists pdetails,
    all f = Return pall /\ lists f = Return plists /\
    details f = Return pdetails /\
    Forall (fun c => exists k, c = Return k /\ matchQueryKey k pall = true)
      [ all f; lists f; list_ f filters; details f; detail f id;
        custom f args; createPaginatedQueryKey resource pagination;
        createInfiniteQueryKey resource params ] /\
    Forall (fun c => exists k, c = Return k /\ matchQueryKey k plists = true)
      [ lists f; list_ f filters; createPaginatedQueryKey resource pagination ] /\
    Forall (fun c => exists k, c = Return k /\ matchQueryKey k pdetails = true)
      [ details f; detail f id ].
Proof.
  intros f. do 3 eexists. do 3 (split; [reflexivity|]).
  split; [|split]; repeat apply Forall_cons_2; try apply Forall_nil_2;
    try destruct filters; try destruct params;
    first [ extends [VString resource; VString "list"]
          | extends [VString resource; VString "detail"]
          | extends [VString resource] ].
Qed.

(** A built key [c] starts with another segment than the pattern. *)
Ltac differs :=
  eexists; split; [reflexivity|];
  first [ apply matchQueryKey_head_differs; congruence
        | rewrite matchQueryKey_cons by discriminate;
          apply matchQueryKey_head_differs; congruence ].

(** X5: keys of different resources are kept apart, and so are the list and
    the detail keys of one resource.  No key built for [resource] matches
    [all()] of another resource; no list key matches [details()] and no
    detail key matches [lists()]. *)
Theorem factory_separation (resource resource' : string)
    (filters params : option loc) (pagination : loc) (id : string + number)
    (args : list value) :
  resource <> resource' ->
  let f := createQueryKeyFactory resource in
  exists pall' plists pdetails,
    all (createQueryKeyFactory resource') = Return pall' /\
    lists f = Return plists /\ details f = Return pdetails /\
    Forall (fun c => exists k, c = Return k /\ matchQueryKey k pall' = false)
      [ all f; lists f; list_ f filters; details f; detail f id;
        custom f args; createPaginatedQueryKey resource pagination;
        createInfiniteQueryKey resource params ] /\
    Forall (fun c => exists k, c = Return k /\ matchQueryKey k pdetails = false)
      [ lists f; list_ f filters; createPaginatedQueryKey resource pagination ] /\
    Forall (fun c => exists k, c = Return k /\ matchQueryKey k plists = false)
      [ details f; detail f id ].
Proof.
  intros Hne f. do 3 eexists. do 3 (split; [reflexivity|]).
  split; [|split]; repeat apply Forall_cons_2; try apply Forall_nil_2;
    try destruct filters; try destruct params; differs.
Qed.

Lemma factory_separation_witness :
  "posts" <> "users" /\
  exists k, list_ (createQueryKeyFactory "posts") (Some 0%nat) = Return k /\
            matchQueryKey k [VString "users"] = false.
Proof.
  split; [discriminate|].
  destruct (factory_separation "posts" "users" (Some 0%nat) None 0%nat
              (inl "a") [] ltac:(discriminate))
    as (pall' & plists & pdetails & [= <-] & _ & _ & Hall & _).
  apply Forall_cons in Hall as [_ Hall].
  apply Forall_cons in Hall as [_ Hall].
  apply Forall_cons in Hall as [Hlist _].
  exact Hlist.
Defined.

(** X6: scoped keys isolate scopes.  The prefix pattern built for one scope
    and resource matches a scoped key exactly when the key has that scope id
    and that resource. *)
Theorem scoped_isolation (scopeId scopeId' resource resource' : string)
    (args : list value) :
  exists k p,
    createScopedQueryKey scopeId resource args = Return k /\
    createScopedQueryKey scopeId' resource' [] = Return p /\
    (matchQueryKey k p = true <-> scopeId = scopeId' /\ resource = resource').
Proof.
  do 2 eexists. do 2 (split; [reflexivity|]). cbn [app].
  rewrite matchQueryKey_cons by discriminate. split.
  - intros Hmatch.
    destruct (decide (scopeId = scopeId')) as [->|Hs].
    + rewrite matchQueryKey_cons in Hmatch by discriminate.
      destruct (decide (resource = resource')) as [->|Hr]; [auto|].
      rewrite matchQueryKey_head_differs in Hmatch; [discriminate|discriminate|congruence].
    + rewrite matchQueryKey_head_differs in Hmatch; [discriminate|discriminate|congruence].
  - intros [-> ->]. rewrite !matchQueryKey_cons by discriminate. reflexivity.
Qed.

(** X7: the first segment of a scoped key is the plain string ["user"], so
    [all()] of a factory matches scoped keys exactly when the factory's
    resource is named ["user"]; it then matches the scoped keys of every
    scope. *)
Theorem scoped_matches_all (scopeId resource resource' : string)
    (args : list value) :
  exists k p,
    createScopedQueryKey scopeId resource args = Return k /\
    all (createQueryKeyFactory resource') = Return p /\
    (matchQueryKey k p = true <-> resource' = "user").
Proof.
  do 2 eexists. do 2 (split; [reflexivity|]). cbn [app]. split.
  - intros Hmatch. destruct (decide (resource' = "user")) as [->|Hr]; [reflexivity|].
    rewrite matchQueryKey_head_differs in Hmatch; [discriminate|discriminate|congruence].
  - intros ->. rewrite matchQueryKey_cons by discriminate. reflexivity.
Qed.

End KeySpaceLaws.

(** ** RetryHelpers *)

Module RetryHelpersProps.
Import RetryHelpers.

Section retry.
Context {Error : Type}.
Variable shouldNotRetry : Error -> bool.

Lemma retries_from (n : Z) (errors : list Error) :
  forall failureCount : nat,
    retries (createConditionalRetry shouldNotRetry (Some (Fin n)))
            failureCount errors =
    Nat.min (Z.to_nat (n - Z.of_nat failureCount))
            (length (retryable_prefix shouldNotRetry errors)).
Proof.
  induction errors as [|error rest IH]; intros failureCount.
  - cbn [retries retryable_prefix length]. lia.
  - cbn [retries retryable_prefix]. unfold createConditionalRetry at 1.
    cbn [default id number_lt].
    destruct (shouldNotRetry error).
    + cbn [length]. lia.
    + case_bool_decide as Hlt.
      * rewrite IH. cbn [length]. lia.
      * cbn [length]. lia.
Qed.

(** X8: the number of retries a conditional retry function grants.  When the
    attempts keep failing with [errors], the engine retries as many times as
    [maxRetries] allows (once by default) and stops before the first error
    the checker picks out; [createQuotaAwareRetry] grants the same. *)
Theorem retries_count (maxRetries : option Z) (errors : list Error) :
  let granted :=
    Nat.min (Z.to_nat (default 1 maxRetries))
            (length (retryable_prefix shouldNotRetry errors)) in
  retries (createConditionalRetry shouldNotRetry (Fin <$> maxRetries))
          0 errors = granted /\
  retries (createQuotaAwareRetry shouldNotRetry (Fin <$> maxRetries))
          0 errors = granted.
Proof.
  assert (forall n, Z.to_nat (n - Z.of_nat 0) = Z.to_nat n) as Hzero
    by (intros n; f_equal; lia).
  intros granted. unfold granted.
  change (createQuotaAwareRetry shouldNotRetry (Fin <$> maxRetries))
    with (createConditionalRetry shouldNotRetry
            (Some (default (Fin 1) (Fin <$> maxRetries)))).
  destruct maxRetries as [n|]; cbn [fmap option_fmap option_map default id].
  - now rewrite retries_from, Hzero.
  - change (createConditionalRetry shouldNotRetry None)
      with (createConditionalRetry shouldNotRetry (Some (Fin 1))).
    now rewrite retries_from, Hzero.
Qed.

End retry.

End RetryHelpersProps.

(** ** usePaginatedQuery *)

Module OffsetPaginationProps.
Import OffsetPagination.

Section pagination.
Context {TData : Type}.
Variable dataset : list TData.

Implicit Types (pages : list (Page.t TData)).

(** The successor of a page of the paging server. *)
Lemma getNextPageParam_server (limit : option Z) (pageParam : Param.t) :
  getNextPageParam (useOffsetPagination limit) (paged_server dataset pageParam) =
  if bool_decide (Param.offset pageParam + Param.limit pageParam <
                  Z.of_nat (length dataset))
  then Some {| Param.offset := Param.offset pageParam + Param.limit pageParam;
               Param.limit := default 20 limit |}
  else None.
Proof. reflexivity. Qed.

(** Loading from an offset on: the items of the pages are the rest of the
    list, and the last page has no successor. *)
Lemma fetchPages_from (limit : option Z) (fuel : nat) :
  0 < default 20 limit ->
  forall o : Z,
    0 <= o ->
    (length dataset - Z.to_nat o < fuel)%nat ->
    exists pages lastPage,
      fetchPages fuel (paged_server dataset)
        (getNextPageParam (useOffsetPagination limit))
        {| Param.offset := o; Param.limit := default 20 limit |} = pages /\
      pages ≫= Page.items = drop (Z.to_nat o) dataset /\
      last pages = Some lastPage /\
      Page.total lastPage = Z.of_nat (length dataset) /\
      getNextPageParam (useOffsetPagination limit) lastPage = None.
Proof.
  intros Hlimit. induction fuel as [|fuel IH]; intros o Ho Hfuel; [lia|].
  cbn [fetchPages]. rewrite getNextPageParam_server. cbn [Param.offset Param.limit].
  case_bool_decide as Hnext.
  - destruct (IH (o + default 20 limit))
      as (pages & lastPage & -> & Hitems & Hlast & Htotal & Hnone); [lia | lia |].
    eexists. exists lastPage. split; [reflexivity|]. split; [|split; [|auto]].
    + rewrite bind_cons, Hitems.
      cbn [paged_server Page.items Param.offset Param.limit].
      rewrite Z2Nat.inj_add by lia. rewrite <- drop_drop.
      apply take_drop.
    + rewrite last_cons. now rewrite Hlast.
  - eexists. eexists. split; [reflexivity|]. split; [|split; [reflexivity|split]].
    + rewrite bind_cons. change ([] ≫= Page.items) with (@nil TData).
      rewrite app_nil_r.
      cbn [paged_server Page.items Param.offset Param.limit].
      apply take_ge. rewrite length_drop. lia.
    + reflexivity.
    + rewrite getNextPageParam_server. cbn [Param.offset Param.limit].
      now rewrite bool_decide_eq_false_2.
Qed.

(** X9: offset pagination loads the whole list.  With a positive limit (20
    by default), against a server that pages a fixed list, loading pages
    until [getNextPageParam] gives none ends, and the flattened pages are the
    list itself, in order, nothing missing and nothing twice; [totalItems]
    and [total] are its size. *)
Theorem offset_pagination_loads_all (limit : option Z) (fuel : nat) :
  0 < default 20 limit ->
  (length dataset < fuel)%nat ->
  let h := useOffsetPagination limit in
  let pages := fetchAll fuel (paged_server dataset) h in
  flatData h (Some pages) = dataset /\
  totalItems h (Some pages) = length dataset /\
  total h (Some pages) = Z.of_nat (length dataset) /\
  exists lastPage,
    last pages = Some lastPage /\ getNextPageParam h lastPage = None.
Proof.
  intros Hlimit Hfuel h pages.
  destruct (fetchPages_from limit fuel Hlimit 0 ltac:(lia) ltac:(lia))
    as (pages' & lastPage & Hpages & Hitems & Hlast & Htotal & Hnone).
  assert (pages = pages') as -> by exact Hpages.
  change (drop (Z.to_nat 0) dataset) with dataset in Hitems.
  assert (flatData h (Some pages') = dataset) as Hflat by exact Hitems.
  split; [exact Hflat|]. split; [|split].
  - change (totalItems h (Some pages')) with (length (flatData h (Some pages'))).
    now rewrite Hflat.
  - change (total h (Some pages')) with (default 0 (Page.total <$> last pages')).
    now rewrite Hlast.
  - exists lastPage. auto.
Qed.

(** X10: a limit of zero never advances.  Against the same server with a
    list that is not empty, every page requested is empty and its successor
    is the initial parameter again: the loading uses up any bound on the
    number of requests and collects nothing. *)
Theorem offset_pagination_zero_limit (fuel : nat) :
  dataset <> [] ->
  let h := useOffsetPagination (Some 0) in
  let pages := fetchAll fuel (paged_server dataset) h in
  length pages = fuel /\
  flatData h (Some pages) = [] /\
  Forall (fun page => getNextPageParam h page = Some (initialPageParam h)) pages.
Proof.
  intros Hne h pages. unfold pages, fetchAll.
  assert (0 < Z.of_nat (length dataset)) as Hlen
    by (destruct dataset; [congruence | cbn [length]; lia]).
  assert (getNextPageParam h (paged_server dataset (initialPageParam h)) =
          Some (initialPageParam h)) as Hnext.
  { unfold h. rewrite getNextPageParam_server.
    cbn [useOffsetPagination initialPageParam Param.offset Param.limit default].
    now rewrite bool_decide_eq_true_2 by (cbn; lia). }
  change (flatData h (Some ?l)) with (l ≫= Page.items).
  induction fuel as [|fuel' (IHlen & IHflat & IHall)].
  - repeat split. apply Forall_nil_2.
  - cbn [fetchPages]. rewrite Hnext. split; [|split].
    + cbn [length]. now rewrite IHlen.
    + rewrite bind_cons, IHflat. reflexivity.
    + apply Forall_cons_2; [exact Hnext | exact IHall].
Qed.

End pagination.

(** Five items, two per page: three pages. *)
Lemma offset_pagination_loads_all_witness :
  0 < default 20 (Some 2) /\
  (length [1; 2; 3; 4; 5] < 6)%nat /\
  let h := useOffsetPagination (TData := Z) (Some 2) in
  let pages := fetchAll 6 (paged_server [1; 2; 3; 4; 5]) h in
  length pages = 3%nat /\
  flatData h (Some pages) = [1; 2; 3; 4; 5] /\
  totalItems h (Some pages) = 5%nat /\
  total h (Some pages) = 5.
Proof.
  split; [reflexivity|]. split; [cbn; lia|]. intros h pages.
  split; [reflexivity|].
  destruct (offset_pagination_loads_all [1; 2; 3; 4; 5] (Some 2) 6
              ltac:(reflexivity) ltac:(cbn; lia))
    as (Hflat & Hitems & Htotal & _).
  auto.
Defined.

Lemma offset_pagination_zero_limit_witness :
  [1; 2; 3] <> [] /\
  let h := useOffsetPagination (TData := Z) (Some 0) in
  let pages := fetchAll 4 (paged_server [1; 2; 3]) h in
  length pages = 4%nat /\ flatData h (Some pages) = [].
Proof.
  split; [discriminate|]. intros h pages.
  destruct (offset_pagination_zero_limit [1; 2; 3] 4 ltac:(discriminate))
    as (Hlen & Hflat & _).
  auto.
Defined.

End OffsetPaginationProps.

(** ** PersisterConfig: what else the persister does *)

Module PersisterLaws.
Import CacheDefaults PersisterConfig PersisterConfigProps.

Section persister.
Variable P : Platform.
Variable options : PersisterFactoryOptions.

Let version := busterVersion_of options.

(** X11: whatever [deserialize] accepts is sound.  A result other than
    [undefined] is the [data] property of a parsed object whose version is
    the expected string, whose timestamp converts to a number without
    throwing, and whose age does not exceed [maxAge]. *)
Theorem deserialize_accepts (DEV : bool) (now : Z) (s : string)
    (data : JSValue) (log : list console_entry) :
  deserialize (createPersister P DEV options) now s = (data, log) ->
  data <> JUndefined ->
  exists properties timestamp written,
    JSON_parse P s = Return (JObject properties) /\
    lookup_property "version" properties = Some (JString version) /\
    lookup_property "data" properties = Some data /\
    Get (JObject properties) "timestamp" = Return timestamp /\
    ToNumber P timestamp = Return written /\
    number_gt (number_sub (Fin now) written) (maxAge_of options) = false /\
    log = [].
Proof.
  intros Hrun Hdata.
  destruct (JSON_parse P s) as [parsed|e] eqn:Hparse.
  2: { rewrite (deserialize_syntax_error P DEV options now s e Hparse) in Hrun.
       congruence. }
  destruct (Get parsed "version") as [v|e] eqn:Hversion.
  2: { rewrite (deserialize_type_error P DEV options now s parsed e Hparse Hversion)
         in Hrun. congruence. }
  destruct (strict_not_equals_string v version) eqn:Hne.
  { rewrite (deserialize_version_mismatch P DEV options now s parsed v
               Hparse Hversion Hne) in Hrun. congruence. }
  apply strict_not_equals_string_false in Hne as ->.
  destruct (Get_total parsed _ "version" "timestamp" Hversion) as [ts Hts].
  destruct (ToNumber P ts) as [written|e] eqn:Hwritten.
  2: { rewrite (deserialize_coercion_error P DEV options now s parsed ts e
                  Hparse Hversion Hts Hwritten) in Hrun.
       congruence. }
  rewrite (deserialize_checks_age P DEV options now s parsed ts written
             Hparse Hversion Hts Hwritten) in Hrun.
  cbv zeta in Hrun. destruct (number_gt _ _) eqn:Hage; [congruence|].
  destruct parsed as [| | | | |elements|properties]; try discriminate Hversion.
  cbn [Get] in Hversion, Hrun, Hts.
  destruct (lookup_property "version" properties) as [v|] eqn:Hv;
    [|discriminate Hversion].
  injection Hversion as ->.
  cbn [mbind completion_bind try_catch] in Hrun. injection Hrun as Hd <-.
  destruct (lookup_property "data" properties) as [d|] eqn:Hd';
    [|cbn in Hd; congruence].
  cbn in Hd. subst d.
  exists properties, ts, written. auto 10.
Qed.

(** X12: version drift.  What a persister with one [busterVersion] wrote is
    refused by a persister with another, at every time and whatever its
    [maxAge]: it returns [undefined] from the version check. *)
Theorem deserialize_other_version (DEV DEV' : bool)
    (options' : PersisterFactoryOptions) (t0 now : Z) (data : JSValue) :
  busterVersion_of options' <> version ->
  serializable P (persistData version t0 data) ->
  exists bytes : string,
    serialize (createPersister P DEV options) t0 data = Some bytes /\
    deserialize (createPersister P DEV' options') now bytes =
    (JUndefined,
     when_DEV DEV'
       [LogVersionMismatch (busterVersion_of options') (JString version)]).
Proof.
  intros Hne (text & Hprint & Hparse). exists text. split; [exact Hprint|].
  apply (deserialize_version_mismatch P DEV' options' now text _
           (JString version) Hparse).
  - reflexivity.
  - cbn [strict_not_equals_string]. rewrite bool_decide_eq_false_2; [reflexivity|].
    intros Heq. apply Hne. symmetry. exact Heq.
Qed.

(** X13: a record without a usable timestamp never expires.  When the stored
    object has the expected version and its timestamp is missing, or
    converts without throwing to [NaN], the age is [NaN], the age check
    passes, and the [data] property is returned at every time and for every
    [maxAge].  (A timestamp whose conversion throws is not such a record:
    the [catch] answers it with [undefined].) *)
Theorem deserialize_no_timestamp (DEV : bool) (now : Z) (s : string)
    (parsed timestamp data : JSValue) :
  JSON_parse P s = Return parsed ->
  Get parsed "version" = Return (JString version) ->
  Get parsed "timestamp" = Return timestamp ->
  ToNumber P timestamp = Return NaN ->
  Get parsed "data" = Return data ->
  deserialize (createPersister P DEV options) now s = (data, []).
Proof.
  intros Hparse Hversion Htimestamp Hnan Hdata.
  rewrite (deserialize_checks_age P DEV options now s parsed timestamp NaN
             Hparse Hversion Htimestamp Hnan).
  cbv zeta. rewrite Hdata. reflexivity.
Qed.

(** X14: development mode changes the log only.  With [__DEV__] on or off,
    [serialize] writes the same text and [deserialize] returns the same
    value. *)
Theorem DEV_irrelevant (now : Z) (s : string) (data : JSValue) :
  serialize (createPersister P true options) now data =
  serialize (createPersister P false options) now data /\
  (deserialize (createPersister P true options) now s).1 =
  (deserialize (createPersister P false options) now s).1.
Proof.
  split; [reflexivity|].
  destruct (JSON_parse P s) as [parsed|e] eqn:Hparse.
  2: { now rewrite !(deserialize_syntax_error P _ options now s e Hparse). }
  destruct (Get parsed "version") as [v|e] eqn:Hversion.
  2: { now rewrite !(deserialize_type_error P _ options now s parsed e
                       Hparse Hversion). }
  destruct (strict_not_equals_string v version) eqn:Hne.
  { now rewrite !(deserialize_version_mismatch P _ options now s parsed v
                    Hparse Hversion Hne). }
  apply strict_not_equals_string_false in Hne as ->.
  destruct (Get_total parsed _ "version" "timestamp" Hversion) as [ts Hts].
  destruct (Get_total parsed _ "version" "data" Hversion) as [d Hd].
  destruct (ToNumber P ts) as [written|e] eqn:Hwritten.
  2: { now rewrite !(deserialize_coercion_error P _ options now s parsed ts e
                       Hparse Hversion Hts Hwritten). }
  rewrite !(deserialize_checks_age P _ options now s parsed ts written
              Hparse Hversion Hts Hwritten).
  cbv zeta. rewrite Hd. destruct (number_gt _ _); reflexivity.
Qed.

End persister.

Import PersisterExamples.

(** The example snapshot, read one hour after it was written. *)
Lemma deserialize_accepts_witness :
  let text := default EmptyString (serialize persister 1700000000000 snapshot) in
  deserialize persister 1700003600000 text = (snapshot, []) /\
  snapshot <> JUndefined /\
  exists properties timestamp written,
    JSON_parse MiniJSON.platform text = Return (JObject properties) /\
    lookup_property "version" properties = Some (JString "1") /\
    lookup_property "data" properties = Some snapshot /\
    Get (JObject properties) "timestamp" = Return timestamp /\
    ToNumber MiniJSON.platform timestamp = Return written /\
    number_gt (number_sub (Fin 1700003600000) written)
              (maxAge_of default_options) = false /\
    @nil console_entry = [].
Proof.
  split; [vm_compute; reflexivity|]. split; [discriminate|].
  apply (deserialize_accepts MiniJSON.platform default_options true
           1700003600000 _ snapshot []);
    [vm_compute; reflexivity | discriminate].
Defined.

(** Written with version 1, read with version 2. *)
Lemma deserialize_other_version_witness :
  let options' := {| keyPrefix := None; maxAge := None;
                     busterVersion := Some "2"; throttleTime := None |} in
  busterVersion_of options' <> busterVersion_of default_options /\
  exists bytes : string,
    serialize persister 1700000000000 snapshot = Some bytes /\
    deserialize (createPersister MiniJSON.platform true options')
      1700000000000 bytes =
    (JUndefined, [LogVersionMismatch "2" (JString "1")]).
Proof.
  intros options'. split; [discriminate|].
  apply (deserialize_other_version MiniJSON.platform default_options true true
           options' 1700000000000 1700000000000 snapshot);
    [discriminate | apply snapshot_serializable].
Defined.

(** A record of version 1 without a timestamp, read in the year 2286. *)
Lemma deserialize_no_timestamp_witness :
  let record := JObject [("version", JString "1");
                         ("data", JArray [JNumber (Fin 7)])] in
  let text := default EmptyString (MiniJSON.print record) in
  JSON_parse MiniJSON.platform text = Return record /\
  ToNumber MiniJSON.platform JUndefined = Return NaN /\
  deserialize persister 9999999999999 text = (JArray [JNumber (Fin 7)], []).
Proof.
  split; [vm_compute; reflexivity|]. split; [reflexivity|].
  apply (deserialize_no_timestamp MiniJSON.platform default_options true
           9999999999999 _
           (JObject [("version", JString "1");
                     ("data", JArray [JNumber (Fin 7)])])
           JUndefined (JArray [JNumber (Fin 7)]));
    vm_compute; reflexivity.
Defined.

End PersisterLaws.

(** ** PersisterConfig: the persisted entry *)

Module PersisterStorageProps.
Import PersisterConfig PersisterStorage.

Lemma append_inj_r (a b s : string) : a +:+ s = b +:+ s -> a = b.
Proof.
  revert b. induction a as [|c a IH]; intros [|d b] Heq.
  - reflexivity.
  - apply (f_equal String.length) in Heq.
    rewrite !JSONTextProps.length_append in Heq. cbn [String.length] in Heq. lia.
  - apply (f_equal String.length) in Heq.
    rewrite !JSONTextProps.length_append in Heq. cbn [String.length] in Heq. lia.
  - rewrite !JSONTextProps.append_cons in Heq. injection Heq as -> Heq.
    f_equal. now apply IH.
Qed.

(** The name of the entry, as the persister and the two functions build it. *)
Lemma key_createPersister (P : Platform) (DEV : bool)
    (options : PersisterFactoryOptions) :
  key (createPersister P DEV options) =
  default "tanstack-query" (keyPrefix options) +:+ "-cache".
Proof. reflexivity. Qed.




(** X16: a size of [0] does not tell an empty cache from a failure.
    [getPersistedCacheSize] reports [0] exactly when the storage does not
    answer, when there is no entry, or when the entry is the empty text. *)
Theorem getPersistedCacheSize_zero (DEV : bool) (keyPrefix : option string)
    (st : storage) :
  let name := default "tanstack-query" keyPrefix +:+ "-cache" in
  (getPersistedCacheSize DEV keyPrefix st).1 = O <->
  available st = false \/ entries st !! name = None \/
  entries st !! name = Some EmptyString.
Proof.
  intros name. unfold getPersistedCacheSize, getItem. fold name.
  destruct (available st); cbn [fst]; [|tauto].
  destruct (entries st !! name) as [text|]; [|tauto].
  case_bool_decide as Hempty.
  - subst text. tauto.
  - split.
    + destruct text; [congruence | discriminate].
    + intros [?|[?|[= ->]]]; congruence.
Qed.

(** X17: clearing one prefix leaves the entries of the others.  The entry of
    a persister whose [keyPrefix] differs from the one cleared is still
    there afterwards. *)
Theorem clearPersistedCache_other_prefix (P : Platform) (DEV DEV' : bool)
    (options : PersisterFactoryOptions) (keyPrefix : option string)
    (st : storage) :
  default "tanstack-query" keyPrefix <> keyPrefix_of options ->
  let name := key (createPersister P DEV options) in
  entries (clearPersistedCache DEV' keyPrefix st).1 !! name =
  entries st !! name.
Proof.
  intros Hne name. unfold name. rewrite key_createPersister.
  unfold clearPersistedCache, removeItem.
  destruct (available st); cbn [fst entries]; [|reflexivity].
  apply lookup_delete_ne. intros Heq%append_inj_r. apply Hne, Heq.
Qed.


Lemma clearPersistedCache_other_prefix_witness :
  let st := {| entries := {[ "tanstack-query-cache" := "{}";
                             "other-cache" := "[]" ]};
               available := true |} in
  default "tanstack-query" (Some "other") <>
    keyPrefix_of PersisterExamples.default_options /\
  entries (clearPersistedCache true (Some "other") st).1
    !! "tanstack-query-cache" = Some "{}".
Proof.
  intros st. split; [discriminate|].
  exact (clearPersistedCache_other_prefix MiniJSON.platform true true
           PersisterExamples.default_options (Some "other") st
           ltac:(discriminate)).
Defined.

End PersisterStorageProps.

(** ** useOptimisticUpdate: whole mutations *)

Module MutationLaws.
Import OptimisticUpdate OptimisticUpdateProps Mutations.

Section mutations.
Context {K : Type} `{Countable K}.
Context {TData TVariables TError : Type}.
Variable truthy : TError -> bool.
Variable DEV : bool.

Implicit Types (w : world (K := K) (TData := TData) (TError := TError)).
Implicit Types
  (config : OptimisticUpdateConfig (K := K) (TData := TData)
              (TVariables := TVariables) (TError := TError)).
Implicit Types
  (configA configB : OptimisticUpdateConfig (K := K) (TData := TData)
              (TVariables := TVariables) (TError := TError)).
Implicit Types (variables : TVariables) (error : TError).

(** [onMutate] when the key holds nothing. *)
Lemma onMutate_absent config w variables :
  cache w !! queryKey config = None ->
  onMutate (useOptimisticUpdate truthy DEV config) variables w =
  ({| previousData := None |},
   {| cache := cache w;
      calls := calls w ++ [CancelQueries (queryKey config)];
      console := console w |}).
Proof.
  intros Hnone. unfold useOptimisticUpdate. cbn [onMutate].
  unfold mbind, M_bind, cancelQueries, record_call, getQueryData.
  cbn [cache calls console]. rewrite Hnone. reflexivity.
Qed.

(** [onMutate] in both cases: the context, the cache and the calls. *)
Lemma onMutate_effect config w variables :
  exists w1,
    onMutate (useOptimisticUpdate truthy DEV config) variables w =
      ({| previousData := cache w !! queryKey config |}, w1) /\
    cache w1 =
      match cache w !! queryKey config with
      | Some v =>
          <[queryKey config := updater config (Some v) variables]> (cache w)
      | None => cache w
      end /\
    calls w1 =
      calls w ++ CancelQueries (queryKey config) ::
      match cache w !! queryKey config with
      | Some v =>
          [SetQueryData (queryKey config) (updater config (Some v) variables)]
      | None => []
      end.
Proof.
  destruct (cache w !! queryKey config) as [v|] eqn:Hv.
  - destruct (onMutate_present truthy DEV config w v variables Hv)
      as (w1 & Hrun & Hcache & Hcalls).
    exists w1. auto.
  - eexists. split; [now apply onMutate_absent|]. split; reflexivity.
Qed.

(** [onError] without a hook of the caller. *)
Lemma onError_effect config w variables error (previous : option TData) :
  userOnError config = None ->
  exists w2,
    onError (useOptimisticUpdate truthy DEV config) error variables
      (Some {| previousData := previous |}) w = (tt, w2) /\
    cache w2 =
      match previous with
      | Some v => <[queryKey config := v]> (cache w)
      | None => cache w
      end /\
    calls w2 =
      calls w ++
      match previous with
      | Some v => [SetQueryData (queryKey config) v]
      | None => []
      end.
Proof.
  intros Hhook. destruct previous as [v|].
  - destruct (onError_present truthy DEV config w v variables error)
      as (w2 & Hrun & Hcache & Hcalls).
    exists w2. rewrite Hrun, Hhook. auto.
  - exists w. rewrite onError_absent by reflexivity. rewrite Hhook.
    rewrite app_nil_r. auto.
Qed.

(** [onSettled] without a hook of the caller. *)
Lemma onSettled_effect config w (data : option TData) (error : option TError)
    variables (ctx : option context) :
  userOnSettled config = None ->
  exists w3,
    onSettled (useOptimisticUpdate truthy DEV config) data error variables ctx w
      = (tt, w3) /\
    cache w3 = cache w /\
    calls w3 =
      calls w ++
      if default true (invalidateOnSuccess config) && not_error truthy error
      then [InvalidateQueries (queryKey config)] else [].
Proof.
  intros Hhook. rewrite onSettled_invalidation, Hhook. cbn [if_defined].
  eexists. split; [reflexivity|].
  destruct (_ && _); cbn [cache calls]; rewrite ?app_nil_r; auto.
Qed.

(** A whole mutation without hooks of the caller: the cache and the calls
    afterwards. *)
Lemma execute_effect config w variables
    (result : outcome (TData := TData) (TError := TError)) :
  no_hooks config ->
  let key := queryKey config in
  let w' := (execute (useOptimisticUpdate truthy DEV config) variables result w).2 in
  cache w' =
    match result, cache w !! key with
    | Resolved _, Some v => <[key := updater config (Some v) variables]> (cache w)
    | _, _ => cache w
    end /\
  calls w' =
    calls w ++ [CancelQueries key] ++
    match cache w !! key with
    | Some v => [SetQueryData key (updater config (Some v) variables)]
    | None => []
    end ++
    match result, cache w !! key with
    | Rejected _, Some v => [SetQueryData key v]
    | _, _ => []
    end ++
    if default true (invalidateOnSuccess config) &&
       not_error truthy (error_of result)
    then [InvalidateQueries key] else [].
Proof.
  intros (HonSuccess & HonError & HonSettled) key w'. unfold w', key.
  unfold execute, settle, mbind, M_bind.
  destruct (onMutate_effect config w variables) as (w1 & -> & Hcache1 & Hcalls1).
  destruct result as [data|error]; cbn [error_of].
  - change (onSuccess (useOptimisticUpdate truthy DEV config))
      with (userOnSuccess config).
    rewrite HonSuccess. cbn [if_defined mret M_ret].
    destruct (onSettled_effect config w1 (Some data) None variables
                (Some {| previousData := cache w !! queryKey config |}) HonSettled)
      as (w3 & -> & Hcache3 & Hcalls3).
    cbn [snd]. rewrite Hcache3, Hcalls3, Hcache1, Hcalls1.
    destruct (cache w !! queryKey config); split; try reflexivity;
      now rewrite <- !app_assoc.
  - destruct (onError_effect config w1 variables error
                (cache w !! queryKey config) HonError)
      as (w2 & -> & Hcache2 & Hcalls2).
    destruct (onSettled_effect config w2 None (Some error) variables
                (Some {| previousData := cache w !! queryKey config |}) HonSettled)
      as (w3 & -> & Hcache3 & Hcalls3).
    cbn [snd]. rewrite Hcache3, Hcalls3, Hcache2, Hcalls2, Hcache1, Hcalls1.
    destruct (cache w !! queryKey config) as [v|] eqn:Hv; split;
      try reflexivity; try (now rewrite <- !app_assoc).
    rewrite insert_insert_eq. now apply insert_id.
Qed.

(** X18: a mutation without hooks of the caller touches one cache entry at
    most.  Every other key keeps its value; the mutated key keeps the
    optimistic value when the mutation resolves and held data before, and
    has its previous content (possibly none) in every other case. *)
Theorem mutation_cache_effect config w variables
    (result : outcome (TData := TData) (TError := TError)) :
  no_hooks config ->
  let key := queryKey config in
  let w' := (execute (useOptimisticUpdate truthy DEV config) variables result w).2 in
  (forall k, k <> key -> cache w' !! k = cache w !! k) /\
  cache w' !! key =
    match result, cache w !! key with
    | Resolved _, Some v => Some (updater config (Some v) variables)
    | _, previous => previous
    end.
Proof.
  intros Hhooks key w'.
  destruct (execute_effect config w variables result Hhooks) as [Hcache _].
  fold key w' in Hcache. rewrite Hcache. split.
  - intros k Hk.
    destruct result, (cache w !! key); try reflexivity.
    now rewrite lookup_insert_ne.
  - destruct result, (cache w !! key) eqn:Hv; try reflexivity; try exact Hv.
    now rewrite lookup_insert_eq.
Qed.

(** X19: the calls by which a mutation without hooks of the caller acts on
    the cache and its queries ([cancelQueries], [setQueryData],
    [invalidateQueries]; the read [getQueryData] is not among the recorded
    calls), in order: one cancellation, the optimistic write when the key
    held data, the rollback write when it held data and the mutation was
    rejected, and one invalidation when [invalidateOnSuccess] is not false
    and the error is falsy; no other call of these three kinds is made. *)
Theorem mutation_call_trace config w variables
    (result : outcome (TData := TData) (TError := TError)) :
  no_hooks config ->
  let key := queryKey config in
  let w' := (execute (useOptimisticUpdate truthy DEV config) variables result w).2 in
  calls w' =
    calls w ++ [CancelQueries key] ++
    match cache w !! key with
    | Some v => [SetQueryData key (updater config (Some v) variables)]
    | None => []
    end ++
    match result, cache w !! key with
    | Rejected _, Some v => [SetQueryData key v]
    | _, _ => []
    end ++
    if default true (invalidateOnSuccess config) &&
       not_error truthy (error_of result)
    then [InvalidateQueries key] else [].
Proof.
  intros Hhooks key w'.
  exact (proj2 (execute_effect config w variables result Hhooks)).
Qed.



(** X22: mutations without hooks on different keys do not interfere: run
    one after the other in either order, they leave the same cache. *)
Theorem mutations_commute configA configB w variablesA variablesB
    (resultA resultB : outcome (TData := TData) (TError := TError)) :
  no_hooks configA ->
  no_hooks configB ->
  queryKey configA <> queryKey configB ->
  let optionsA := useOptimisticUpdate truthy DEV configA in
  let optionsB := useOptimisticUpdate truthy DEV configB in
  cache (execute optionsB variablesB resultB
           (execute optionsA variablesA resultA w).2).2 =
  cache (execute optionsA variablesA resultA
           (execute optionsB variablesB resultB w).2).2.
Proof.
  intros HhooksA HhooksB Hne. cbv zeta.
  pose proof (fun w => proj1 (execute_effect configA w variablesA resultA HhooksA))
    as HA.
  pose proof (fun w => proj1 (execute_effect configB w variablesB resultB HhooksB))
    as HB.
  cbv zeta in HA, HB.
  rewrite HB, (HA (execute _ variablesB resultB w).2), (HA w), (HB w).
  destruct resultA, resultB;
    destruct (cache w !! queryKey configA) eqn:HvA,
             (cache w !! queryKey configB) eqn:HvB;
    rewrite ?lookup_insert_ne, ?HvA, ?HvB by congruence;
    try reflexivity.
  apply insert_insert_ne. congruence.
Qed.

End mutations.

(** Witnesses on the likes counter. *)

Lemma mutation_cache_effect_witness :
  no_hooks likes_config /\
  let w := counters_world in
  let w' := (execute likes_options 1 (Rejected "timeout") w).2 in
  (forall k, k <> "likes" -> cache w' !! k = cache w !! k) /\
  cache w' !! "likes" = cache w !! "likes".
Proof.
  assert (Hhooks : no_hooks likes_config) by (repeat split).
  split; [exact Hhooks|].
  exact (mutation_cache_effect string_truthy true likes_config counters_world 1
           (Rejected "timeout") Hhooks).
Defined.

Lemma mutation_call_trace_witness :
  no_hooks likes_config /\
  calls (execute likes_options 1 (Rejected "timeout") counters_world).2 =
    [CancelQueries "likes"; SetQueryData "likes" 6; SetQueryData "likes" 5].
Proof.
  assert (Hhooks : no_hooks likes_config) by (repeat split).
  split; [exact Hhooks|].
  exact (mutation_call_trace string_truthy true likes_config counters_world 1
           (Rejected "timeout") Hhooks).
Defined.



Lemma mutations_commute_witness :
  queryKey likes_config <> queryKey views_config /\
  let optionsB := useOptimisticUpdate string_truthy true views_config in
  cache (execute optionsB 10 (Rejected "offline")
           (execute likes_options 1 (Resolved 6) counters_world).2).2 =
  cache (execute likes_options 1 (Resolved 6)
           (execute optionsB 10 (Rejected "offline") counters_world).2).2.
Proof.
  assert (Hne : queryKey likes_config <> queryKey views_config)
    by discriminate.
  split; [exact Hne|].
  exact (mutations_commute string_truthy true likes_config views_config
           counters_world 1 10 (Resolved 6) (Rejected "offline")
           ltac:(repeat split) ltac:(repeat split) Hne).
Defined.

End MutationLaws.

(** ** QueryClientConfig: the strategy table *)

Module QueryClientConfigLaws.
Import CacheDefaults QueryClientConfig.

(** X23: [getCacheStrategy] returns a configuration of the table only for
    the five values of [CacheStrategyType], and every configuration it
    returns keeps data in the cache at least as long as the data is fresh:
    [0 <= staleTime <= gcTime]. *)
Theorem getCacheStrategy_own (strategy : string) (c : CacheConfig) :
  getCacheStrategy strategy = Return (Own c) ->
  (exists t : CacheStrategyType, strategy = CacheStrategyType_value t) /\
  0 <= staleTime c <= gcTime c.
Proof.
  unfold getCacheStrategy. intros Hown.
  destruct (CacheStrategies !! strategy) as [c'|] eqn:Hlookup;
    [|case_bool_decide; discriminate].
  assert (c' = c) as -> by congruence. clear Hown.
  apply elem_of_list_to_map_2 in Hlookup.
  repeat (apply elem_of_cons in Hlookup as [Heq|Hlookup];
          [injection Heq as -> ->|]).
  - split; [now exists REALTIME | vm_compute; split; discriminate].
  - split; [now exists USER_DATA | vm_compute; split; discriminate].
  - split; [now exists MASTER_DATA | vm_compute; split; discriminate].
  - split; [now exists PUBLIC_DATA | vm_compute; split; discriminate].
  - split; [now exists CUSTOM | vm_compute; split; discriminate].
  - now apply elem_of_nil in Hlookup.
Qed.

Lemma getCacheStrategy_own_witness :
  getCacheStrategy "MASTER_DATA" =
    Return (Own (strategy DEFAULT_STALE_TIME.VERY_LONG DEFAULT_GC_TIME.VERY_LONG
                   (RefetchBool false) (RefetchBool false) (RefetchBool false)
                   DEFAULT_RETRY.STANDARD)) /\
  (exists t : CacheStrategyType, "MASTER_DATA" = CacheStrategyType_value t) /\
  0 <= DEFAULT_STALE_TIME.VERY_LONG <= DEFAULT_GC_TIME.VERY_LONG.
Proof.
  assert (Hown : getCacheStrategy "MASTER_DATA" =
    Return (Own (strategy DEFAULT_STALE_TIME.VERY_LONG DEFAULT_GC_TIME.VERY_LONG
                   (RefetchBool false) (RefetchBool false) (RefetchBool false)
                   DEFAULT_RETRY.STANDARD))) by (vm_compute; reflexivity).
  split; [exact Hown|].
  exact (getCacheStrategy_own "MASTER_DATA" _ Hown).
Defined.

End QueryClientConfigLaws.
